(** * The Spot car-wash front end: offline-resilience layer

    A shallow embedding of the page script (SpotApp: request gateway,
    action replay queue, live refresh scheduler, connectivity monitor) and
    of the service worker (cache arbiter), with the properties of the
    offline-resilience layer stated over them.

    Conventions of the embedding.
    - The page runs on one thread.  A handler is modelled as a computation
      in a state / trace / exception monad over a [World]: the mutable
      [SpotApp.state], the parts of the browser the handlers read, and the
      network as a script of fetch outcomes indexed by the number of
      fetches issued so far.
    - Every [await] is run to completion before the caller continues, and
      no other handler is interleaved with the one under study.  A call
      that the source does not await (a detached promise) is run to
      completion at the place where it is started; its first fetch is
      issued synchronously there in the browser as well, the rest of it
      runs in the browser after the caller has gone on, and no statement
      below depends on the order between that rest and what the caller
      does next.
    - The retry counter of the gateway is shared by all the calls in
      flight.  Where a property of a call depends on what else runs while
      the call waits, the call is modelled a second time, as a sequence
      of resumptions over the shared world (Calls in flight together).
    - [console.log] and [console.error] are not recorded.
    - [fetch], [confirm], timers, arrays and the Cache API are the
      browser's; they are modelled after their specifications. *)

From stdpp Require Import base list strings.
From Stdlib Require Import ZArith Lia.

(** ** HTTP vocabulary shared by the page and the worker *)

Inductive Method := GET | POST | PUT | DELETE.

#[global] Instance Method_eq_dec : EqDecision Method.
Proof. solve_decision. Defined.

(** [response.ok]: the status is in the range 200-299. *)
Definition status_ok (status : nat) : bool :=
  (200 <=? status) && (status <=? 299).

(** [String.prototype.startsWith]. *)
Fixpoint startsWith (s p : string) : bool :=
  match p, s with
  | EmptyString, _ => true
  | String c p', String d s' => if decide (c = d) then startsWith s' p' else false
  | String _ _, EmptyString => false
  end.

(** [String.prototype.includes]. *)
Fixpoint includes (s sub : string) : bool :=
  startsWith s sub ||
  match s with
  | EmptyString => false
  | String _ s' => includes s' sub
  end.

(** * The page script *)

Module App.

(** ** Configuration and state ([SpotApp.config], [SpotApp.state]) *)

Record Config := {
  apiBaseUrl : string;
  refreshInterval : Z;
  offlineThreshold : Z;
  maxRetries : nat;
  animationDuration : Z;
  touchTargetSize : Z;
  debounceDelay : Z
}.

Definition config : Config := {|
  apiBaseUrl := "/api";
  refreshInterval := 30000;
  offlineThreshold := 5000;
  maxRetries := 3;
  animationDuration := 300;
  touchTargetSize := 44;
  debounceDelay := 300
|}.

Inductive Visibility := visible | hidden.

#[global] Instance Visibility_eq_dec : EqDecision Visibility.
Proof. solve_decision. Defined.

(** An element of [state.syncQueue].  The array holds references to
    objects and [indexOf] compares references, so an action carries the
    identity [oid] of its object: two entries with the same [oid] are the
    same object, two objects with equal fields have different [oid]s. *)
Record PendingAction := {
  oid : nat;
  endpoint : string;
  method : Method;
  data : option string
}.

Record State := {
  isOnline : bool;
  syncQueue : list PendingAction;
  refreshTimer : option nat;
  retryCount : nat;
  pageVisibility : Visibility
}.

(** ** The browser around the page *)

(** The parsed JSON body of an API response: the envelope
    [{ success, data?, error?: { message } }]. *)
Record Envelope := {
  success : bool;
  payload : option string;
  error_message : option string
}.

(** What [fetch] resolves to: the status and the outcome of
    [response.json()] ([None] when the body is not JSON). *)
Record Response := {
  status : nat;
  json : option Envelope
}.

Inductive FetchOutcome :=
| NetworkFailure
| Responds (r : Response).

(** The values thrown in the page: the rejection of [fetch], the
    [Error("HTTP error! status: ...")] of [apiCall], and the rejection of
    [response.json()]. *)
Inductive Error :=
| NetworkError
| HttpError (status : nat)
| JsonError.

(** The callbacks of the interval timers of the scheduler: the one of
    [startRealTimeUpdates] and the one of [setupQueueAutoRefresh]. *)
Inductive TimerCallback := RefreshTick | QueueReloadTick.

Record Timer := {
  timer_id : nat;
  timer_callback : TimerCallback;
  timer_interval : Z
}.

(** [timers] holds the interval timers of the scheduler, those whose
    handle goes to [state.refreshTimer].  The timers that [animateNumber]
    arms for the ten steps of a number animation are not part of the
    world. *)
Record World := {
  state : State;
  pathname : string;
  visibilityState : Visibility;
  confirmAnswer : bool;
  net : nat -> string -> Method -> FetchOutcome;
  clock : nat;
  timers : list Timer;
  nextTimer : nat
}.

Definition with_state (f : State -> State) (w : World) : World :=
  {| state := f (state w); pathname := pathname w;
     visibilityState := visibilityState w; confirmAnswer := confirmAnswer w;
     net := net w; clock := clock w; timers := timers w;
     nextTimer := nextTimer w |}.

Definition with_clock (c : nat) (w : World) : World :=
  {| state := state w; pathname := pathname w;
     visibilityState := visibilityState w; confirmAnswer := confirmAnswer w;
     net := net w; clock := c; timers := timers w;
     nextTimer := nextTimer w |}.

Definition with_visibilityState (v : Visibility) (w : World) : World :=
  {| state := state w; pathname := pathname w;
     visibilityState := v; confirmAnswer := confirmAnswer w;
     net := net w; clock := clock w; timers := timers w;
     nextTimer := nextTimer w |}.

Definition with_timers (t : list Timer) (n : nat) (w : World)
  : World :=
  {| state := state w; pathname := pathname w;
     visibilityState := visibilityState w; confirmAnswer := confirmAnswer w;
     net := net w; clock := clock w; timers := t; nextTimer := n |}.

Definition set_isOnline (b : bool) (s : State) : State :=
  {| isOnline := b; syncQueue := syncQueue s; refreshTimer := refreshTimer s;
     retryCount := retryCount s; pageVisibility := pageVisibility s |}.

Definition set_syncQueue (q : list PendingAction) (s : State) : State :=
  {| isOnline := isOnline s; syncQueue := q; refreshTimer := refreshTimer s;
     retryCount := retryCount s; pageVisibility := pageVisibility s |}.

Definition set_refreshTimer (t : option nat) (s : State) : State :=
  {| isOnline := isOnline s; syncQueue := syncQueue s; refreshTimer := t;
     retryCount := retryCount s; pageVisibility := pageVisibility s |}.

Definition set_retryCount (n : nat) (s : State) : State :=
  {| isOnline := isOnline s; syncQueue := syncQueue s;
     refreshTimer := refreshTimer s; retryCount := n;
     pageVisibility := pageVisibility s |}.

Definition set_pageVisibility (v : Visibility) (s : State) : State :=
  {| isOnline := isOnline s; syncQueue := syncQueue s;
     refreshTimer := refreshTimer s; retryCount := retryCount s;
     pageVisibility := v |}.

(** ** Observable effects *)

Inductive Event :=
| EvFetch (url : string) (m : Method) (body : option string)
| EvDelay (ms : Z)
| EvConfirm (message : string)
| EvToast (message type : string)
| EvShowLoading (message : string)
| EvHideLoading
| EvConnectionIndicator (online : bool)
| EvOfflineBanner (shown : bool)
| EvUpdateDashboardStats (stats : string)
| EvReload.

(** ** The monad of handlers *)

(** A computation ends by returning, by throwing, or by running out of the
    fuel of a loop ([Stuck]; shown below not to happen). *)
Inductive Res (A : Type) :=
| Ret (a : A)
| Throw (e : Error)
| Stuck.
Arguments Ret {A} a.
Arguments Throw {A} e.
Arguments Stuck {A}.

Record Out (A : Type) := mkOut {
  events : list Event;
  world : World;
  result : Res A
}.
Arguments mkOut {A}.
Arguments events {A}.
Arguments world {A}.
Arguments result {A}.

Definition M (A : Type) := World -> Out A.

Definition ret {A} (a : A) : M A := fun w => mkOut [] w (Ret a).

Definition throw {A} (e : Error) : M A := fun w => mkOut [] w (Throw e).

Definition stuck {A} : M A := fun w => mkOut [] w Stuck.

Definition bind {A B} (m : M A) (k : A -> M B) : M B := fun w =>
  let o := m w in
  match result o with
  | Ret a =>
      let o' := k a (world o) in
      mkOut (events o ++ events o') (world o') (result o')
  | Throw e => mkOut (events o) (world o) (Throw e)
  | Stuck => mkOut (events o) (world o) Stuck
  end.

(** [try { m } catch (error) { h error }]: the state changes and effects of
    [m] up to the throw are kept. *)
Definition try_catch {A} (m : M A) (h : Error -> M A) : M A := fun w =>
  let o := m w in
  match result o with
  | Throw e =>
      let o' := h e (world o) in
      mkOut (events o ++ events o') (world o') (result o')
  | _ => o
  end.

(** [try { m } finally { f }]. *)
Definition try_finally {A} (m : M A) (f : M unit) : M A := fun w =>
  let o := m w in
  match result o with
  | Stuck => o
  | r =>
      let o' := f (world o) in
      mkOut (events o ++ events o') (world o')
        match result o' with
        | Ret _ => r
        | Throw e => Throw e
        | Stuck => Stuck
        end
  end.

(** A call whose promise is dropped: what it returns or throws is lost to
    the caller.  The whole call is placed where it is started; in the
    browser the part of it after its first [await] runs later. *)
Definition detached {A} (m : M A) : M unit := fun w =>
  let o := m w in
  mkOut (events o) (world o)
    match result o with
    | Stuck => Stuck
    | _ => Ret tt
    end.

Definition emit (e : Event) : M unit := fun w => mkOut [e] w (Ret tt).

Definition get : M World := fun w => mkOut [] w (Ret w).

Definition gets {A} (f : State -> A) : M A := fun w =>
  mkOut [] w (Ret (f (state w))).

Definition modify (f : State -> State) : M unit := fun w =>
  mkOut [] (with_state f w) (Ret tt).

#[global] Instance M_ret : MRet M := @ret.
#[global] Instance M_bind : MBind M := fun A B k m => bind m k.

(** ** Browser primitives *)

(** [fetch(url, options)]: takes the next outcome of the network script. *)
Definition fetch (url : string) (m : Method) (body : option string)
  : M Response := fun w =>
  let w' := with_clock (S (clock w)) w in
  match net w (clock w) url m with
  | NetworkFailure => mkOut [EvFetch url m body] w' (Throw NetworkError)
  | Responds r => mkOut [EvFetch url m body] w' (Ret r)
  end.

(** [response.json()]. *)
Definition response_json (r : Response) : M Envelope :=
  match json r with
  | Some e => ret e
  | None => throw JsonError
  end.

(** [delay(ms)]: [setTimeout] wrapped in a promise. *)
Definition delay (ms : Z) : M unit := emit (EvDelay ms).

Definition confirm (message : string) : M bool :=
  emit (EvConfirm message) ;;
  w ← get ; ret (confirmAnswer w).

Definition showToast (message type : string) : M unit :=
  emit (EvToast message type).

Definition hideLoading : M unit := emit EvHideLoading.

Definition showLoading (message : string) : M unit :=
  hideLoading ;;
  emit (EvShowLoading message).

(** ** Request gateway *)

(** The body of the [try] block of [apiCall]. *)
Definition apiCall_try (url : string) (m : Method) (body : option string)
  : M Envelope :=
  response ← fetch url m body ;
  if negb (status_ok (status response)) then
    throw (HttpError (status response))
  else
    result ← response_json response ;
    modify (set_retryCount 0) ;;
    ret result.

(** [`${this.config.apiBaseUrl}${endpoint}`]. *)
Definition api_url (endpoint : string) : string :=
  apiBaseUrl config +:+ endpoint.

(** [options.body]: set only when there is data and the method is not
    GET. *)
Definition request_body (m : Method) (data : option string)
  : option string :=
  if decide (m = GET) then None else data.

(** The [catch] block of [apiCall]; [again] is the recursive call, absent
    when the fuel of the recursion is spent. *)
Definition apiCall_catch (again : option (M Envelope)) (error : Error)
  : M Envelope :=
  online ← gets isOnline ;
  rc ← gets retryCount ;
  if online && (rc <? maxRetries config) then
    match again with
    | None => stuck
    | Some call =>
        modify (set_retryCount (S rc)) ;;
        rc' ← gets retryCount ;
        delay (1000 * Z.of_nat rc') ;;
        call
    end
  else throw error.

(** [apiCall(endpoint, method, data)], with the recursion of the retry
    bounded by [fuel].  The [customHeaders] argument only adds request
    headers and is left out. *)
Fixpoint apiCall_fuel (fuel : nat) (endpoint : string) (m : Method)
    (data : option string) : M Envelope :=
  let url := api_url endpoint in
  let body := request_body m data in
  try_catch (apiCall_try url m body)
    (apiCall_catch
       match fuel with
       | 0 => None
       | S fuel' => Some (apiCall_fuel fuel' endpoint m data)
       end).

(** At most [maxRetries] recursive calls can be made, whatever the
    counter is at the start. *)
Definition apiCall (endpoint : string) (m : Method) (data : option string)
  : M Envelope :=
  apiCall_fuel (maxRetries config) endpoint m data.

(** ** Live refresh scheduler *)

(** [setInterval(callback, ms)]: the browser hands out positive handles. *)
Definition setInterval (cb : TimerCallback) (ms : Z) : M nat := fun w =>
  let id := nextTimer w in
  mkOut []
    (with_timers
       (timers w ++ [{| timer_id := id; timer_callback := cb;
                        timer_interval := ms |}]) (S id) w)
    (Ret id).

Definition clearInterval (id : nat) : M unit := fun w =>
  mkOut []
    (with_timers (filter (fun t => timer_id t ≠ id) (timers w))
       (nextTimer w) w)
    (Ret tt).

Definition refreshablePages : list string :=
  ["/dashboard"; "/queue"; "/new-order"].

Definition shouldRefreshCurrentPage : M bool :=
  w ← get ;
  ret (existsb (fun path => includes (pathname w) path) refreshablePages).

(** [updateDashboardStats(stats)] writes the three numbers and the time
    of the last update to the page; the animation of the numbers
    ([animateNumber]) is display work and is recorded, with the rest, as
    one event. *)
Definition updateDashboardStats (stats : string) : M unit :=
  emit (EvUpdateDashboardStats stats).

Definition refreshCurrentPage : M unit :=
  try_catch
    (should ← shouldRefreshCurrentPage ;
     if (should : bool) then
       response ← apiCall "/dashboard-stats" GET None ;
       match success response, payload response with
       | true, Some stats => updateDashboardStats stats
       | _, _ => ret tt
       end
     else ret tt)
    (fun error => ret tt).

(** What the browser runs when an interval timer fires: the arrow
    function given to [setInterval] by [startRealTimeUpdates], or the one
    given by [setupQueueAutoRefresh]. *)
Definition run_callback (cb : TimerCallback) : M unit :=
  match cb with
  | RefreshTick =>
      v ← gets pageVisibility ;
      online ← gets isOnline ;
      if bool_decide (v = visible) && online then detached refreshCurrentPage
      else ret tt
  | QueueReloadTick =>
      v ← gets pageVisibility ;
      online ← gets isOnline ;
      if bool_decide (v = visible) && online then emit EvReload
      else ret tt
  end.

(** The timer [id] fires; a cleared timer does not fire. *)
Definition timer_fires (id : nat) : M unit :=
  w ← get ;
  match find (fun t => bool_decide (timer_id t = id)) (timers w) with
  | Some t => run_callback (timer_callback t)
  | None => ret tt
  end.

Definition startRealTimeUpdates : M unit :=
  online ← gets isOnline ;
  if negb online then ret tt
  else
    t ← gets refreshTimer ;
    match t : option nat with
    | Some id => clearInterval id
    | None => ret tt
    end ;;
    id ← setInterval RefreshTick (refreshInterval config) ;
    modify (set_refreshTimer (Some id)).

Definition stopRealTimeUpdates : M unit :=
  t ← gets refreshTimer ;
  match t : option nat with
  | Some id => clearInterval id ;; modify (set_refreshTimer None)
  | None => ret tt
  end.

Definition setupQueueAutoRefresh : M unit :=
  t ← gets refreshTimer ;
  match t : option nat with
  | Some id => clearInterval id
  | None => ret tt
  end ;;
  id ← setInterval QueueReloadTick 15000 ;
  modify (set_refreshTimer (Some id)).

(** ** Order management *)

(** [message || fallback] on an optional string: a missing or empty
    message gives the fallback. *)
Definition or_else (message : option string) (fallback : string) : string :=
  match message with
  | Some (String c rest) => String c rest
  | _ => fallback
  end.

Definition quickStartOrder (orderId : string) : M unit :=
  yes ← confirm "Start this order now?" ;
  if negb yes then ret tt
  else
    try_finally
      (try_catch
         (showLoading "Starting order..." ;;
          response ← apiCall ("/orders/" +:+ orderId +:+ "/start") POST None ;
          if success response then
            showToast "Order started successfully" "success" ;;
            detached refreshCurrentPage
          else
            showToast
              (or_else (error_message response) "Failed to start order")
              "error")
         (fun error =>
            showToast "Failed to start order. Please try again." "error"))
      hideLoading.

Definition quickCompleteOrder (orderId : string) : M unit :=
  yes ← confirm "Mark this order as complete?" ;
  if negb yes then ret tt
  else
    try_finally
      (try_catch
         (showLoading "Completing order..." ;;
          response ← apiCall ("/orders/" +:+ orderId +:+ "/finish") POST None ;
          if success response then
            showToast "Order completed successfully" "success" ;;
            detached refreshCurrentPage
          else
            showToast
              (or_else (error_message response) "Failed to complete order")
              "error")
         (fun error =>
            showToast "Failed to complete order. Please try again." "error"))
      hideLoading.

(** ** Action replay queue *)

(** [Array.prototype.indexOf]: the index of the first element that is the
    same object, or -1. *)
Fixpoint indexOf_from (q : list PendingAction) (a : PendingAction) (i : Z)
  : Z :=
  match q with
  | [] => -1
  | x :: q' => if decide (oid x = oid a) then i else indexOf_from q' a (i + 1)
  end%Z.

Definition indexOf (q : list PendingAction) (a : PendingAction) : Z :=
  indexOf_from q a 0.

(** [Array.prototype.splice(start, deleteCount)] without inserted items: a
    negative [start] counts from the end, and both are clamped to the
    array. *)
Definition splice {A} (q : list A) (start deleteCount : Z) : list A :=
  let len := Z.of_nat (length q) in
  let from := if (start <? 0)%Z then Z.max (len + start) 0
              else Z.min start len in
  let count := Z.min (Z.max deleteCount 0) (len - from) in
  take (Z.to_nat from) q ++ drop (Z.to_nat (from + count)) q.

(** The body of the loop of [syncOfflineActions]. *)
Definition syncOfflineActions_body (action : PendingAction) : M unit :=
  try_catch
    (apiCall (endpoint action) (method action) (data action) ;;
     modify (fun s =>
       set_syncQueue
         (splice (syncQueue s) (indexOf (syncQueue s) action) 1) s))
    (fun error => ret tt).

(** The [for (const action of this.state.syncQueue)] loop.  The array
    iterator keeps an index into the live array: at each step it stops if
    the index has reached the current length, and otherwise yields the
    element at the index and advances by one. *)
Fixpoint syncOfflineActions_loop (fuel : nat) (i : nat) : M unit :=
  q ← gets syncQueue ;
  match (q : list PendingAction) !! i with
  | None => ret tt
  | Some action =>
      match fuel with
      | 0 => stuck
      | S fuel' =>
          syncOfflineActions_body action ;;
          syncOfflineActions_loop fuel' (S i)
      end
  end.

Definition syncOfflineActions : M unit :=
  q ← gets syncQueue ;
  if length (q : list PendingAction) =? 0 then ret tt
  else
    syncOfflineActions_loop (length q) 0 ;;
    showToast "Offline actions synced successfully" "success".

(** ** Connectivity monitor *)

Definition updateConnectionIndicator (online : bool) : M unit :=
  emit (EvConnectionIndicator online).

Definition showOfflineBanner : M unit := emit (EvOfflineBanner true).

Definition hideOfflineBanner : M unit := emit (EvOfflineBanner false).

Definition handleOnline : M unit :=
  modify (set_isOnline true) ;;
  updateConnectionIndicator true ;;
  hideOfflineBanner ;;
  detached syncOfflineActions ;;
  startRealTimeUpdates ;;
  showToast "Connection restored" "success".

Definition handleOffline : M unit :=
  modify (set_isOnline false) ;;
  updateConnectionIndicator false ;;
  showOfflineBanner ;;
  stopRealTimeUpdates ;;
  showToast "You're offline. Some features may be limited." "warning".

Definition handleVisibilityChange : M unit :=
  w ← get ;
  modify (set_pageVisibility (visibilityState w)) ;;
  v ← gets pageVisibility ;
  if bool_decide (v = visible) then
    detached refreshCurrentPage ;;
    startRealTimeUpdates
  else
    stopRealTimeUpdates.

(** The browser changes [document.visibilityState] and then dispatches
    [visibilitychange]. *)
Definition visibilitychange (v : Visibility) : M unit := fun w =>
  handleVisibilityChange (with_visibilityState v w).

(** ** Vocabulary of the statements *)

(** What one pass through the [try] block of [apiCall] makes of a fetch
    outcome: the parsed body, or the error it throws. *)
Definition attempt (o : FetchOutcome) : Error + Envelope :=
  match o with
  | NetworkFailure => inl NetworkError
  | Responds r =>
      if status_ok (status r) then
        match json r with
        | Some env => inr env
        | None => inl JsonError
        end
      else inl (HttpError (status r))
  end.

(** The world after an attempt: one more fetch has been issued. *)
Definition ticked (w : World) : World := with_clock (S (clock w)) w.

(** The trace of [n] retries of the request [f], the first of them being
    retry number [k]: before retry [k] the gateway waits [k] seconds. *)
Fixpoint retries (f : Event) (k n : nat) : list Event :=
  match n with
  | 0 => []
  | S n' => EvDelay (1000 * Z.of_nat k) :: f :: retries f (S k) n'
  end.

Definition retry_trace (f : Event) (n : nat) : list Event :=
  f :: retries f 1 n.

Definition fails (o : FetchOutcome) : Prop := exists e, attempt o = inl e.

(** The gateway gives up at once on an HTTP error: one fetch, no delay,
    and the error with the status is thrown. *)
Definition fails_without_retry (ep : string) (m : Method) (d : option string)
    (w : World) : Prop :=
  forall r,
    net w (clock w) (api_url ep) m = Responds r ->
    status_ok (status r) = false ->
    events (apiCall ep m d w) = [EvFetch (api_url ep) m (request_body m d)] /\
    result (apiCall ep m d w) = Throw (HttpError (status r)).

(** The handler leaves [state.syncQueue] as it found it. *)
Definition keeps_queue {A} (c : M A) : Prop :=
  forall w, syncQueue (state (world (c w))) = syncQueue (state w).

(** An action for [ep] and [m] has been appended to the queue. *)
Definition queued_for (ep : string) (m : Method)
    (before after : list PendingAction) : Prop :=
  exists a, after = before ++ [a] /\ endpoint a = ep /\ method a = m.

Definition is_fetch (e : Event) : bool :=
  match e with
  | EvFetch _ _ _ => true
  | _ => false
  end.

(** The handler issues at least one fetch when run in [w]. *)
Definition initiates_fetch {A} (c : M A) (w : World) : bool :=
  existsb is_fetch (events (c w)).

(** The event stream of an order action that the user confirmed and
    whose gateway call threw: confirmation, loading overlay, the one
    fetch, the error toast, overlay removed. *)
Definition failed_action_trace (question loading url toast : string)
  : list Event :=
  [EvConfirm question; EvHideLoading; EvShowLoading loading;
   EvFetch url POST None; EvToast toast "error"; EvHideLoading].

(** The fetch that replays a queued action. *)
Definition fetch_of (a : PendingAction) : Event :=
  EvFetch (api_url (endpoint a)) (method a) (request_body (method a) (data a)).

(** The elements at positions 0, 2, 4, ... of a list. *)
Fixpoint every_other {A} (l : list A) : list A :=
  match l with
  | [] => []
  | x :: l' =>
      x :: match l' with
           | [] => []
           | _ :: l'' => every_other l''
           end
  end.

(** The server answers every request, whenever it is made. *)
Definition always_answers (w : World) : Prop :=
  forall n url m, exists env, attempt (net w n url m) = inr env.

(** ** Sample worlds *)

Definition sample_envelope : Envelope :=
  {| success := true; payload := Some "stats"; error_message := None |}.

Definition answer_200 : FetchOutcome :=
  Responds {| status := 200; json := Some sample_envelope |}.

Definition answer_500 : FetchOutcome :=
  Responds {| status := 500; json := None |}.

(** A page on the dashboard, visible, with no timer, an idle gateway and
    a user who confirms every dialog. *)
Definition sample_world (script : nat -> string -> Method -> FetchOutcome)
    (queue : list PendingAction) (online : bool) : World :=
  {| state := {| isOnline := online; syncQueue := queue;
                 refreshTimer := None; retryCount := 0;
                 pageVisibility := visible |};
     pathname := "/dashboard"; visibilityState := visible;
     confirmAnswer := true; net := script; clock := 0;
     timers := []; nextTimer := 1 |}.

Definition start_5 : PendingAction :=
  {| oid := 1; endpoint := "/orders/5/start"; method := POST; data := None |}.

Definition finish_5 : PendingAction :=
  {| oid := 2; endpoint := "/orders/5/finish"; method := POST; data := None |}.

Definition start_6 : PendingAction :=
  {| oid := 3; endpoint := "/orders/6/start"; method := POST; data := None |}.

(** The network is up and the server answers every request. *)
Definition always_200 : nat -> string -> Method -> FetchOutcome :=
  fun _ _ _ => answer_200.

(** The server answers every request with an internal error. *)
Definition always_500 : nat -> string -> Method -> FetchOutcome :=
  fun _ _ _ => answer_500.

(** The network is down. *)
Definition always_down : nat -> string -> Method -> FetchOutcome :=
  fun _ _ _ => NetworkFailure.

(** The first two fetches fail, the later ones are answered. *)
Definition down_twice : nat -> string -> Method -> FetchOutcome :=
  fun n _ _ => if n <? 2 then NetworkFailure else answer_200.

(** Every request is answered except those that start order 5. *)
Definition start_5_refused : nat -> string -> Method -> FetchOutcome :=
  fun _ url _ =>
    if String.eqb url "/api/orders/5/start" then NetworkFailure
    else answer_200.

(** ** Swipe gestures and the dispatch of page events *)

(** [handleSwipeLeft(element)] and [handleSwipeRight(element)];
    [orderId] is [element.dataset.orderId], absent when the row has no
    such attribute, and an empty string is falsy. *)
Definition handleSwipeLeft (orderId : option string) : M unit :=
  match orderId with
  | Some (String c rest) => detached (quickCompleteOrder (String c rest))
  | _ => ret tt
  end.

Definition handleSwipeRight (orderId : option string) : M unit :=
  match orderId with
  | Some (String c rest) => detached (quickStartOrder (String c rest))
  | _ => ret tt
  end.

(** [initializeQueue()], run by [initializePageFeatures] on [/queue]. *)
Definition initializeQueue : M unit := setupQueueAutoRefresh.

(** What can happen to the page once it is set up: the listeners
    registered by [setupEventListeners] and [setupTouchGestures], and the
    interval timers. *)
Inductive PageEvent :=
| Online
| Offline
| VisibilityChange (v : Visibility)
| TimerFires (id : nat)
| SwipeLeft (orderId : option string)
| SwipeRight (orderId : option string).

Definition dispatch (ev : PageEvent) : M unit :=
  match ev with
  | Online => handleOnline
  | Offline => handleOffline
  | VisibilityChange v => visibilitychange v
  | TimerFires id => timer_fires id
  | SwipeLeft orderId => handleSwipeLeft orderId
  | SwipeRight orderId => handleSwipeRight orderId
  end.

(** The world after a sequence of page events. *)
Fixpoint after_events (evs : list PageEvent) (w : World) : World :=
  match evs with
  | [] => w
  | ev :: evs' => after_events evs' (world (dispatch ev w))
  end.

(** The sample page moved to the customer list, which is not refreshed. *)
Definition customers_page (w : World) : World :=
  {| state := state w; pathname := "/customers";
     visibilityState := visibilityState w; confirmAnswer := confirmAnswer w;
     net := net w; clock := clock w; timers := timers w;
     nextTimer := nextTimer w |}.

(** ** Further vocabulary of the statements *)

(** The number of fetches in an event stream. *)
Fixpoint fetches (evs : list Event) : nat :=
  match evs with
  | [] => 0
  | e :: evs' => (if is_fetch e then 1 else 0) + fetches evs'
  end.

(** The time spent in [delay], in milliseconds. *)
Fixpoint total_delay (evs : list Event) : Z :=
  match evs with
  | [] => 0
  | EvDelay ms :: evs' => ms + total_delay evs'
  | _ :: evs' => total_delay evs'
  end.

(** [w'] is [w] except for the retry counter and the number of fetches
    issued. *)
Definition gateway_frame (w w' : World) : Prop :=
  exists rc c, w' = with_state (set_retryCount rc) (with_clock c w).

(** Every request fails, whenever it is made. *)
Definition always_fails (w : World) : Prop :=
  forall n url m, fails (net w n url m).

(** The scheduler holds at most one interval timer, and it is the one
    whose handle is in [state.refreshTimer]. *)
Definition timers_ok (w : World) : Prop :=
  match refreshTimer (state w) with
  | Some id => exists cb ms,
      timers w = [{| timer_id := id; timer_callback := cb;
                     timer_interval := ms |}]
  | None => timers w = []
  end.

(** [w'] has the timers, the timer handle and the connectivity flags of
    [w]. *)
Definition scheduler_frame (w w' : World) : Prop :=
  timers w' = timers w /\
  nextTimer w' = nextTimer w /\
  refreshTimer (state w') = refreshTimer (state w) /\
  isOnline (state w') = isOnline (state w) /\
  pageVisibility (state w') = pageVisibility (state w).

(** The refresh timer that [startRealTimeUpdates] arms, with handle
    [id]. *)
Definition refresh_timer (id : nat) : Timer :=
  {| timer_id := id; timer_callback := RefreshTick;
     timer_interval := refreshInterval config |}.

(** The reload timer that [setupQueueAutoRefresh] arms, with handle
    [id]. *)
Definition reload_timer (id : nat) : Timer :=
  {| timer_id := id; timer_callback := QueueReloadTick;
     timer_interval := 15000 |}.

(** The most that a call starting with the counter at [rc] can still
    wait: the delays of the retries [rc + 1], ..., 3. *)
Definition delay_budget (rc : nat) : Z :=
  let r := Z.of_nat (Nat.min rc 3) in 500 * (12 - r * (r + 1)).

(** The computation never runs out of fuel. *)
Definition never_stuck {A} (c : M A) : Prop :=
  forall w, result (c w) <> Stuck.

(** The computation returns a value: it neither throws nor runs out of
    fuel. *)
Definition always_returns {A} (c : M A) : Prop :=
  forall w, exists a, result (c w) = Ret a.

(** The computation keeps the invariant [I] of the world. *)
Definition preserves (I : World -> Prop) {A} (c : M A) : Prop :=
  forall w, I w -> I (world (c w)).

(** ** Calls in flight together *)

(** [apiCall] is an async function: it gives the thread back at
    [await fetch(...)], at [await response.json()] and at
    [await this.delay(...)], and whatever else is ready runs before it is
    resumed.  [Suspended] is where a call waits; the outcome of a pending
    fetch is the one the network script had for it when it was issued. *)
Inductive Suspended :=
| AtFetch (o : FetchOutcome)
| AtJson (r : Response)
| AtDelay
| Settled (r : Res Envelope).

(** The start of a call, up to [await fetch(url, options)]. *)
Definition issue (endpoint : string) (m : Method) (data : option string)
  : M Suspended := fun w =>
  let url := api_url endpoint in
  mkOut [EvFetch url m (request_body m data)] (ticked w)
    (Ret (AtFetch (net w (clock w) url m))).

(** The [catch] block, up to [await this.delay(...)] or to the [throw]. *)
Definition caught (error : Error) : M Suspended :=
  online ← gets isOnline ;
  rc ← gets retryCount ;
  if online && (rc <? maxRetries config) then
    modify (set_retryCount (S rc)) ;;
    rc' ← gets retryCount ;
    delay (1000 * Z.of_nat rc') ;;
    ret AtDelay
  else ret (Settled (Throw error)).

(** One resumption of a call: the code between the [await] it waits at
    and the next one. *)
Definition resume (endpoint : string) (m : Method) (data : option string)
    (at_ : Suspended) : M Suspended :=
  match at_ with
  | AtFetch NetworkFailure => caught NetworkError
  | AtFetch (Responds response) =>
      if negb (status_ok (status response)) then
        caught (HttpError (status response))
      else ret (AtJson response)
  | AtJson response =>
      match json response with
      | Some result =>
          modify (set_retryCount 0) ;;
          ret (Settled (Ret result))
      | None => caught JsonError
      end
  | AtDelay => issue endpoint m data
  | Settled r => ret (Settled r)
  end.

(** A call resumed [n] times in a row, nothing else running in between. *)
Fixpoint alone (n : nat) (endpoint : string) (m : Method)
    (data : option string) (at_ : Suspended) : M Suspended :=
  match n with
  | 0 => ret at_
  | S n' =>
      at' ← resume endpoint m data at_ ;
      alone n' endpoint m data at'
  end.

(** A call that has the page to itself from its start until it settles:
    an attempt takes at most three resumptions, and there are at most
    [maxRetries + 1] attempts. *)
Definition call_alone (endpoint : string) (m : Method) (data : option string)
  : M Suspended :=
  at_ ← issue endpoint m data ;
  alone (3 * S (maxRetries config)) endpoint m data at_.

(** The outcome of a call that has settled. *)
Definition settled (o : Out Envelope) : Out Suspended :=
  mkOut (events o) (world o) (Ret (Settled (result o))).

Record Call := {
  call_endpoint : string;
  call_method : Method;
  call_data : option string;
  call_at : Suspended
}.

(** The calls in flight, numbered in the order in which they were started,
    the world they share, and what each of them has done so far. *)
Record Flight := {
  shared : World;
  calls : list Call;
  log : list (nat * Event)
}.

(** What the thread does next: start a call, or resume the call number
    [i] whose [await] has settled. *)
Inductive Turn :=
| Start (endpoint : string) (m : Method) (data : option string)
| Resume (i : nat).

(** Where a call waits after a turn. *)
Definition landing (o : Out Suspended) : Suspended :=
  match result o with
  | Ret at_ => at_
  | Throw e => Settled (Throw e)
  | Stuck => Settled Stuck
  end.

Definition turn (t : Turn) (p : Flight) : Flight :=
  match t with
  | Start ep m d =>
      let o := issue ep m d (shared p) in
      {| shared := world o;
         calls := calls p ++ [{| call_endpoint := ep; call_method := m;
                                  call_data := d; call_at := landing o |}];
         log := log p ++ (pair (length (calls p)) <$> events o) |}
  | Resume i =>
      match calls p !! i with
      | Some c =>
          let o := resume (call_endpoint c) (call_method c) (call_data c)
                     (call_at c) (shared p) in
          {| shared := world o;
             calls := <[i := {| call_endpoint := call_endpoint c;
                                call_method := call_method c;
                                call_data := call_data c;
                                call_at := landing o |}]> (calls p);
             log := log p ++ (pair i <$> events o) |}
      | None => p
      end
  end.

Fixpoint turns (ts : list Turn) (p : Flight) : Flight :=
  match ts with
  | [] => p
  | t :: ts' => turns ts' (turn t p)
  end.

(** No call in flight yet. *)
Definition idle (w : World) : Flight :=
  {| shared := w; calls := []; log := [] |}.

(** The call to [endpoint] waiting at [at_]. *)
Definition sole (endpoint : string) (m : Method) (data : option string)
    (at_ : Suspended) : Call :=
  {| call_endpoint := endpoint; call_method := m; call_data := data;
     call_at := at_ |}.






End App.

(** * The service worker *)

Module SW.

Definition CACHE_NAME : string := "spot-carwash-v1".
Definition RUNTIME_CACHE : string := "spot-runtime-v1".

Definition STATIC_ASSETS : list string :=
  ["/"; "/static/css/style.css"; "/static/js/app.js"; "/dashboard"; "/queue"].

(** ** Requests, responses and the Cache API *)

Record URL := {
  origin : string;
  pathname : string;
  search : string
}.

#[global] Instance URL_eq_dec : EqDecision URL.
Proof. solve_decision. Defined.

Record Request := {
  url : URL;
  method : Method;
  destination : string
}.

Inductive ResponseType := basic | cors | error | opaque | opaqueredirect.

#[global] Instance ResponseType_eq_dec : EqDecision ResponseType.
Proof. solve_decision. Defined.

Record Response := {
  status : nat;
  type : ResponseType;
  body : string
}.

(** [response.ok]. *)
Definition ok (r : Response) : bool := status_ok (status r).

(** A cache is an ordered list of request/response pairs; the cache
    storage is the list of named caches in order of creation. *)
Abbreviation Cache := (list (Request * Response)).
Abbreviation CacheStorage := (list (string * Cache)).

(** Whether a cached request answers a query: the query must be a GET,
    and the URLs must be equal. *)
Definition request_matches (query cached : Request) : bool :=
  bool_decide (method query = GET) && bool_decide (url cached = url query).

(** [cache.match(request)]. *)
Definition cache_match (c : Cache) (query : Request) : option Response :=
  snd <$> find (fun e => request_matches query (fst e)) c.

(** [cache.put(request, response)]: rejects with a [TypeError] ([None])
    when the request is not a GET or the response is partial (206);
    otherwise replaces the entries the request matches. *)
Definition cache_put (c : Cache) (request : Request) (response : Response)
  : option Cache :=
  if bool_decide (method request = GET) && negb (status response =? 206) then
    Some (filter (fun e => request_matches request (fst e) = false) c
            ++ [(request, response)])
  else None.

(** [caches.keys()]. *)
Definition caches_keys (s : CacheStorage) : list string := fst <$> s.

(** The cache called [name], if there is one. *)
Definition cache_named (name : string) (s : CacheStorage) : option Cache :=
  snd <$> find (fun e => bool_decide (fst e = name)) s.

(** [caches.open(name)]: creates the cache if it does not exist. *)
Definition caches_open (name : string) (s : CacheStorage) : CacheStorage :=
  match cache_named name s with
  | Some _ => s
  | None => s ++ [(name, [])]
  end.

(** [caches.delete(name)]. *)
Definition caches_delete (name : string) (s : CacheStorage) : CacheStorage :=
  filter (fun e => fst e ≠ name) s.

(** [caches.match(request)]: the first match, in order of creation. *)
Fixpoint caches_match (s : CacheStorage) (query : Request)
  : option Response :=
  match s with
  | [] => None
  | (_, c) :: s' =>
      match cache_match c query with
      | Some r => Some r
      | None => caches_match s' query
      end
  end.

(** Replaces the contents of the cache called [name]. *)
Definition set_cache_named (name : string) (c : Cache) (s : CacheStorage)
  : CacheStorage :=
  (fun e => if bool_decide (fst e = name) then (name, c) else e) <$> s.

(** [caches.open(name).then(cache => cache.put(request, response))]; a
    rejected [put] changes nothing but the cache has been created. *)
Definition open_and_put (name : string) (request : Request)
    (response : Response) (s : CacheStorage) : CacheStorage :=
  let s' := caches_open name s in
  match cache_named name s' with
  | Some c =>
      match cache_put c request response with
      | Some c' => set_cache_named name c' s'
      | None => s'
      end
  | None => s'
  end.

Section Worker.

(** [location.origin] of the worker. *)
Variable location_origin : string.

(** [new Request(path)]: a GET for a URL of the worker's origin. *)
Definition new_Request (path : string) : Request :=
  {| url := {| origin := location_origin; pathname := path; search := "" |};
     method := GET; destination := "" |}.

(** ** Install *)

(** The fetches of [cache.addAll(requests)]: every request must resolve
    to an [ok] response. *)
Fixpoint fetch_all (net : Request -> option Response)
    (requests : list Request) : option (list (Request * Response)) :=
  match requests with
  | [] => Some []
  | request :: rest =>
      match net request with
      | Some response =>
          if ok response then
            entries ← fetch_all net rest ;
            Some ((request, response) :: entries)
          else None
      | None => None
      end
  end.

Fixpoint put_all (entries : list (Request * Response)) (c : Cache)
  : option Cache :=
  match entries with
  | [] => Some c
  | (request, response) :: rest =>
      c' ← cache_put c request response ;
      put_all rest c'
  end.

(** [cache.addAll(requests)]: fetches every request and then stores the
    responses in order; if a fetch fails, a response is not [ok] or a
    [put] is refused, it rejects and stores nothing. *)
Definition addAll (net : Request -> option Response)
    (requests : list Request) (c : Cache) : option Cache :=
  entries ← fetch_all net requests ;
  put_all entries c.

Record Installed := {
  installed_caches : CacheStorage;
  skipWaiting : bool
}.

(** The [install] listener.  The [catch] at the end of the chain makes the
    installation succeed also when the precaching has failed. *)
Definition install (net : Request -> option Response) (s : CacheStorage)
  : Installed :=
  let s' := caches_open CACHE_NAME s in
  match cache_named CACHE_NAME s' with
  | Some c =>
      match addAll net (new_Request <$> STATIC_ASSETS) c with
      | Some c' =>
          {| installed_caches := set_cache_named CACHE_NAME c' s';
             skipWaiting := true |}
      | None => {| installed_caches := s'; skipWaiting := false |}
      end
  | None => {| installed_caches := s'; skipWaiting := false |}
  end.

(** ** Activate *)

(** The [activate] listener: [caches.keys()], the filter, and
    [caches.delete] of every name that passes it.  The [clients.claim()]
    that follows does not touch the caches. *)
Definition activate (s : CacheStorage) : CacheStorage :=
  foldl (fun acc cacheName => caches_delete cacheName acc) s
    (filter (fun cacheName =>
               cacheName ≠ CACHE_NAME ∧ cacheName ≠ RUNTIME_CACHE)
       (caches_keys s)).

(** ** Fetch *)

(** What the page gets from the [fetch] listener: the listener returned
    without [respondWith] and the browser handles the request itself, or
    the promise given to [respondWith] resolved, to a response or to
    [undefined]. *)
Inductive Handled :=
| PassThrough
| RespondWith (response : option Response).

Record Fetched := {
  fetched_caches : CacheStorage;
  handled : Handled
}.

(** [fetchAndCache(request)] when [fetch] has resolved to [response]. *)
Definition fetchAndCache (request : Request) (response : Response)
    (s : CacheStorage) : CacheStorage :=
  if negb (status response =? 200) || bool_decide (type response = error)
  then s
  else open_and_put RUNTIME_CACHE request response s.

(** The [fetch] listener; [network] is what [fetch(request)] does during
    this event: [None] when it rejects. *)
Definition on_fetch (request : Request) (network : option Response)
    (s : CacheStorage) : Fetched :=
  if bool_decide (origin (url request) ≠ location_origin) then
    {| fetched_caches := s; handled := PassThrough |}
  else if startsWith (pathname (url request)) "/api/" then
    match network with
    | Some response =>
        {| fetched_caches :=
             if ok response
             then open_and_put RUNTIME_CACHE request response s
             else s;
           handled := RespondWith (Some response) |}
    | None =>
        {| fetched_caches := s;
           handled := RespondWith (caches_match s request) |}
    end
  else
    match caches_match s request with
    | Some cachedResponse =>
        {| fetched_caches :=
             match network with
             | Some response => fetchAndCache request response s
             | None => s
             end;
           handled := RespondWith (Some cachedResponse) |}
    | None =>
        match network with
        | Some response =>
            {| fetched_caches := fetchAndCache request response s;
               handled := RespondWith (Some response) |}
        | None =>
            {| fetched_caches := s;
               handled :=
                 if bool_decide (destination request = "document")
                 then RespondWith (caches_match s (new_Request "/offline.html"))
                 else RespondWith None |}
        end
    end.

(** ** The worker as a transition system over the cache storage *)

Inductive WorkerEvent :=
| Install (net : Request -> option Response)
| Activate
| Fetch (request : Request) (network : option Response).

Definition handle (ev : WorkerEvent) (s : CacheStorage) : CacheStorage :=
  match ev with
  | Install net => installed_caches (install net s)
  | Activate => activate s
  | Fetch request network => fetched_caches (on_fetch request network s)
  end.

(** The cache storages the worker can produce, from the empty storage of
    a fresh origin. *)
Inductive reachable : CacheStorage -> Prop :=
| reachable_init : reachable []
| reachable_step ev s : reachable s -> reachable (handle ev s).

End Worker.

(** ** Vocabulary of the statements *)

(** Every key of the cache is a GET request. *)
Definition get_only_cache (c : Cache) : Prop :=
  Forall (fun e => method (fst e) = GET) c.

(** Every key of every cache of the storage is a GET request. *)
Definition get_only (s : CacheStorage) : Prop :=
  Forall (fun e => get_only_cache (snd e)) s.

(** The name is one of the two current version tags. *)
Definition current (name : string) : Prop :=
  name = CACHE_NAME \/ name = RUNTIME_CACHE.

(** ** Sample storages *)

Definition sample_origin : string := "https://spot.example".

Definition sample_response (content : string) : Response :=
  {| status := 200; type := basic; body := content |}.

(** A network on which every request is answered with its own path. *)
Definition echo_network (request : Request) : option Response :=
  Some (sample_response (pathname (url request))).

(** A navigation of the page to [path]. *)
Definition navigation (path : string) : Request :=
  {| url := {| origin := sample_origin; pathname := path; search := "" |};
     method := GET; destination := "document" |}.

(** A call of the page script to the API. *)
Definition api_request (m : Method) (path : string) : Request :=
  {| url := {| origin := sample_origin; pathname := path; search := "" |};
     method := m; destination := "" |}.

(** The storage of a fresh origin after a successful installation and the
    activation. *)
Definition installed_storage : CacheStorage :=
  activate (installed_caches (install sample_origin echo_network [])).

(** ** Sequences of worker events *)

(** The storage after the events [evs], handled in order. *)
Fixpoint handle_all (location_origin : string) (evs : list WorkerEvent)
    (s : CacheStorage) : CacheStorage :=
  match evs with
  | [] => s
  | ev :: evs' =>
      handle_all location_origin evs' (handle location_origin ev s)
  end.

Definition is_install (ev : WorkerEvent) : bool :=
  match ev with
  | Install _ => true
  | _ => false
  end.

(** What the page gets for [request] from the worker in storage [s] when
    the network does [network]. *)
Definition answer (location_origin : string) (request : Request)
    (network : option Response) (s : CacheStorage) : Handled :=
  handled (on_fetch location_origin request network s).

(** A network on which nothing is reachable. *)
Definition dead_network (request : Request) : option Response := None.

End SW.

(** * Properties of the page script *)

Module AppProps.
Import App.

(** ** Handlers that do not touch the queue *)

Lemma keeps_ret {A} (a : A) : keeps_queue (ret a).
Proof. intros w. reflexivity. Qed.

Lemma keeps_mret {A} (a : A) : keeps_queue (mret a : M A).
Proof. intros w. reflexivity. Qed.

Lemma keeps_throw {A} e : keeps_queue (@throw A e).
Proof. intros w. reflexivity. Qed.

Lemma keeps_stuck {A} : keeps_queue (@stuck A).
Proof. intros w. reflexivity. Qed.

Lemma keeps_emit e : keeps_queue (emit e).
Proof. intros w. reflexivity. Qed.

Lemma keeps_get : keeps_queue get.
Proof. intros w. reflexivity. Qed.

Lemma keeps_gets {A} (g : State -> A) : keeps_queue (gets g).
Proof. intros w. reflexivity. Qed.

Lemma keeps_modify g :
  (forall s, syncQueue (g s) = syncQueue s) -> keeps_queue (modify g).
Proof. intros H w. apply H. Qed.

Lemma keeps_bind {A B} (c : M A) (k : A -> M B) :
  keeps_queue c -> (forall a, keeps_queue (k a)) -> keeps_queue (c ≫= k).
Proof.
  intros Hc Hk w. unfold mbind, M_bind, bind.
  destruct (result (c w)) eqn:Hr; cbn [world]; [|apply Hc..].
  rewrite Hk. apply Hc.
Qed.

Lemma keeps_try_catch {A} (c : M A) h :
  keeps_queue c -> (forall e, keeps_queue (h e)) -> keeps_queue (try_catch c h).
Proof.
  intros Hc Hh w. unfold try_catch.
  destruct (result (c w)) eqn:Hr; cbn [world]; [apply Hc| |apply Hc].
  rewrite Hh. apply Hc.
Qed.

Lemma keeps_try_finally {A} (c : M A) fin :
  keeps_queue c -> keeps_queue fin -> keeps_queue (try_finally c fin).
Proof.
  intros Hc Hf w. unfold try_finally.
  destruct (result (c w)) eqn:Hr; cbn [world];
    rewrite ?Hf; apply Hc.
Qed.

Lemma keeps_detached {A} (c : M A) : keeps_queue c -> keeps_queue (detached c).
Proof. intros Hc w. apply Hc. Qed.

Lemma keeps_fetch url m body : keeps_queue (fetch url m body).
Proof. intros w. unfold fetch. destruct (net w (clock w) url m); reflexivity. Qed.

Lemma keeps_setInterval cb ms : keeps_queue (setInterval cb ms).
Proof. intros w. reflexivity. Qed.

Lemma keeps_clearInterval id : keeps_queue (clearInterval id).
Proof. intros w. reflexivity. Qed.

(** The handlers already known to keep the queue. *)
Ltac keeps_known :=
  first
    [ apply keeps_ret | apply keeps_mret | apply keeps_throw
    | apply keeps_stuck | apply keeps_emit | apply keeps_get
    | apply keeps_gets | apply keeps_fetch | apply keeps_setInterval
    | apply keeps_clearInterval | assumption ].

(** Follows the structure of a handler, splitting on its tests. *)
Ltac keeps :=
  repeat first
    [ progress intros
    | lazymatch goal with
      | |- keeps_queue (if ?b then _ else _) => destruct b
      | |- keeps_queue (match ?x with _ => _ end) => destruct x
      | |- keeps_queue (mbind _ _) => apply keeps_bind
      | |- keeps_queue (try_catch _ _) => apply keeps_try_catch
      | |- keeps_queue (try_finally _ _) => apply keeps_try_finally
      | |- keeps_queue (detached _) => apply keeps_detached
      | |- keeps_queue (modify _) => apply keeps_modify; reflexivity
      | |- keeps_queue _ => keeps_known
      end ].

Lemma keeps_apiCall_try url m body : keeps_queue (apiCall_try url m body).
Proof. unfold apiCall_try, response_json. keeps. Qed.

Lemma keeps_apiCall_fuel fuel ep m d : keeps_queue (apiCall_fuel fuel ep m d).
Proof.
  induction fuel as [|fuel IH]; cbn [apiCall_fuel];
    (apply keeps_try_catch; [apply keeps_apiCall_try|]);
    intros e; unfold apiCall_catch, delay; keeps.
Qed.

Lemma keeps_apiCall ep m d : keeps_queue (apiCall ep m d).
Proof. apply keeps_apiCall_fuel. Qed.

Ltac keeps_known ::=
  first
    [ apply keeps_ret | apply keeps_mret | apply keeps_throw
    | apply keeps_stuck | apply keeps_emit | apply keeps_get
    | apply keeps_gets | apply keeps_fetch | apply keeps_setInterval
    | apply keeps_clearInterval | apply keeps_apiCall | assumption ].

Lemma keeps_refreshCurrentPage : keeps_queue refreshCurrentPage.
Proof.
  unfold refreshCurrentPage, shouldRefreshCurrentPage, updateDashboardStats.
  keeps.
Qed.

Ltac keeps_known ::=
  first
    [ apply keeps_ret | apply keeps_mret | apply keeps_throw
    | apply keeps_stuck | apply keeps_emit | apply keeps_get
    | apply keeps_gets | apply keeps_fetch | apply keeps_setInterval
    | apply keeps_clearInterval | apply keeps_apiCall
    | apply keeps_refreshCurrentPage | assumption ].

(** Starting or completing an order never writes to the queue, whatever
    the network does. *)
Lemma keeps_quickStartOrder orderId : keeps_queue (quickStartOrder orderId).
Proof.
  unfold quickStartOrder, confirm, showLoading, hideLoading, showToast.
  keeps.
Qed.

Lemma keeps_quickCompleteOrder orderId :
  keeps_queue (quickCompleteOrder orderId).
Proof.
  unfold quickCompleteOrder, confirm, showLoading, hideLoading, showToast.
  keeps.
Qed.

Lemma keeps_timer_fires id : keeps_queue (timer_fires id).
Proof. unfold timer_fires, run_callback. keeps. Qed.

Lemma keeps_handleVisibilityChange : keeps_queue handleVisibilityChange.
Proof.
  unfold handleVisibilityChange, startRealTimeUpdates, stopRealTimeUpdates.
  keeps.
Qed.

Lemma keeps_handleOffline : keeps_queue handleOffline.
Proof.
  unfold handleOffline, stopRealTimeUpdates, updateConnectionIndicator,
    showOfflineBanner, showToast.
  keeps.
Qed.

(** ** One attempt *)

Lemma apiCall_try_throw w url m body e :
  attempt (net w (clock w) url m) = inl e ->
  apiCall_try url m body w = mkOut [EvFetch url m body] (ticked w) (Throw e).
Proof.
  unfold attempt, apiCall_try, mbind, M_bind, bind, fetch, ticked. intros H.
  destruct (net w (clock w) url m) as [|r]; simpl in *.
  - congruence.
  - destruct (status_ok (status r)); simpl.
    + unfold response_json. destruct (json r); simpl; congruence.
    + congruence.
Qed.

Lemma apiCall_try_ret w url m body env :
  attempt (net w (clock w) url m) = inr env ->
  apiCall_try url m body w =
  mkOut [EvFetch url m body] (with_state (set_retryCount 0) (ticked w))
    (Ret env).
Proof.
  unfold attempt, apiCall_try, mbind, M_bind, bind, fetch, ticked. intros H.
  destruct (net w (clock w) url m) as [|r]; simpl in *; [congruence|].
  destruct (status_ok (status r)); simpl; [|congruence].
  unfold response_json. destruct (json r); simpl; congruence.
Qed.

(** ** One step of the gateway *)

Lemma apiCall_catch_throw again e w :
  isOnline (state w) = false \/ maxRetries config <= retryCount (state w) ->
  apiCall_catch again e w = mkOut [] w (Throw e).
Proof.
  intros Hno.
  assert (Hc : isOnline (state w) &&
               (retryCount (state w) <? maxRetries config) = false).
  { destruct Hno as [-> | Hle]; [reflexivity|].
    apply andb_false_iff. right. apply Nat.ltb_ge. exact Hle. }
  unfold apiCall_catch, mbind, M_bind, bind, gets.
  cbn [result events world]. rewrite Hc. reflexivity.
Qed.

Lemma apiCall_catch_retry call e w :
  isOnline (state w) = true ->
  retryCount (state w) < maxRetries config ->
  let o := call (with_state (set_retryCount (S (retryCount (state w)))) w) in
  apiCall_catch (Some call) e w =
  mkOut (EvDelay (1000 * Z.of_nat (S (retryCount (state w)))) :: events o)
    (world o) (result o).
Proof.
  intros Hon Hlt o.
  assert (Hc : isOnline (state w) &&
               (retryCount (state w) <? maxRetries config) = true).
  { rewrite Hon. apply Nat.ltb_lt. exact Hlt. }
  unfold apiCall_catch, mbind, M_bind, bind, gets.
  cbn [result events world]. rewrite Hc.
  unfold modify, delay, emit. cbn [result events world app].
  fold o. destruct (result o); reflexivity.
Qed.

Lemma apiCall_fuel_unfold fuel ep m d :
  apiCall_fuel fuel ep m d =
  try_catch (apiCall_try (api_url ep) m (request_body m d))
    (apiCall_catch
       match fuel with
       | 0 => None
       | S fuel' => Some (apiCall_fuel fuel' ep m d)
       end).
Proof. destruct fuel; reflexivity. Qed.

Lemma apiCall_fuel_ret fuel ep m d w env :
  attempt (net w (clock w) (api_url ep) m) = inr env ->
  apiCall_fuel fuel ep m d w =
  mkOut [EvFetch (api_url ep) m (request_body m d)]
    (with_state (set_retryCount 0) (ticked w)) (Ret env).
Proof.
  intros H. rewrite apiCall_fuel_unfold. unfold try_catch.
  rewrite (apiCall_try_ret _ _ _ _ _ H). reflexivity.
Qed.

Lemma apiCall_fuel_throw fuel ep m d w e :
  attempt (net w (clock w) (api_url ep) m) = inl e ->
  isOnline (state w) = false \/ maxRetries config <= retryCount (state w) ->
  apiCall_fuel fuel ep m d w =
  mkOut [EvFetch (api_url ep) m (request_body m d)] (ticked w) (Throw e).
Proof.
  intros H Hno. rewrite apiCall_fuel_unfold. unfold try_catch.
  rewrite (apiCall_try_throw _ _ _ _ _ H). cbn [result events world].
  rewrite apiCall_catch_throw by exact Hno. reflexivity.
Qed.

Lemma apiCall_fuel_retry fuel ep m d w e :
  attempt (net w (clock w) (api_url ep) m) = inl e ->
  isOnline (state w) = true ->
  retryCount (state w) < maxRetries config ->
  let w1 := with_state (set_retryCount (S (retryCount (state w)))) (ticked w) in
  let o := apiCall_fuel fuel ep m d w1 in
  apiCall_fuel (S fuel) ep m d w =
  mkOut (EvFetch (api_url ep) m (request_body m d)
           :: EvDelay (1000 * Z.of_nat (S (retryCount (state w))))
           :: events o)
    (world o) (result o).
Proof.
  intros H Hon Hlt w1 o. rewrite apiCall_fuel_unfold. unfold try_catch.
  rewrite (apiCall_try_throw _ _ _ _ _ H). cbn [result events world].
  rewrite (apiCall_catch_retry _ _ (ticked w) Hon Hlt). reflexivity.
Qed.

(** ** The retry schedule *)

Section Gateway.

Variables (ep : string) (m : Method) (d : option string).

Let f : Event := EvFetch (api_url ep) m (request_body m d).

Lemma failures_shift n w w1 :
  net w1 = net w -> clock w1 = S (clock w) ->
  (forall k, k < S n -> fails (net w (clock w + k) (api_url ep) m)) ->
  forall k, k < n -> fails (net w1 (clock w1 + k) (api_url ep) m).
Proof.
  intros Hnet Hclock H k Hk. rewrite Hnet, Hclock.
  replace (S (clock w) + k) with (clock w + S k) by lia.
  apply H. lia.
Qed.

(** [n] failed attempts while online, then an answer. *)
Lemma apiCall_fuel_recovers n : forall fuel w env,
  isOnline (state w) = true ->
  retryCount (state w) + n <= maxRetries config ->
  n <= fuel ->
  (forall k, k < n -> fails (net w (clock w + k) (api_url ep) m)) ->
  attempt (net w (clock w + n) (api_url ep) m) = inr env ->
  let o := apiCall_fuel fuel ep m d w in
  events o = f :: retries f (S (retryCount (state w))) n /\
  result o = Ret env /\
  retryCount (state (world o)) = 0.
Proof.
  induction n as [|n IH]; intros fuel w env Hon Hrc Hfuel Hfail Hok o.
  - rewrite Nat.add_0_r in Hok. subst o.
    rewrite (apiCall_fuel_ret _ _ _ _ _ _ Hok). auto.
  - destruct fuel as [|fuel]; [lia|].
    destruct (Hfail 0) as [e He]; [lia|]. rewrite Nat.add_0_r in He.
    subst o. rewrite (apiCall_fuel_retry _ _ _ _ _ _ He Hon) by lia.
    cbn [events result world retries].
    set (w1 := with_state _ (ticked w)).
    destruct (IH fuel w1 env) as (Hev & Hres & Hcount).
    + exact Hon.
    + change (retryCount (state w1)) with (S (retryCount (state w))). lia.
    + lia.
    + apply (failures_shift n w); auto.
    + cbn [w1 net clock with_state ticked with_clock].
      replace (S (clock w) + n) with (clock w + S n) by lia. exact Hok.
    + rewrite Hev, Hres, Hcount. auto.
Qed.

(** [n] failed attempts while online that use up the retries, then one
    more failure. *)
Lemma apiCall_fuel_exhausts n : forall fuel w e,
  isOnline (state w) = true ->
  retryCount (state w) + n = maxRetries config ->
  n <= fuel ->
  (forall k, k < n -> fails (net w (clock w + k) (api_url ep) m)) ->
  attempt (net w (clock w + n) (api_url ep) m) = inl e ->
  let o := apiCall_fuel fuel ep m d w in
  events o = f :: retries f (S (retryCount (state w))) n /\
  result o = Throw e /\
  retryCount (state (world o)) = maxRetries config.
Proof.
  induction n as [|n IH]; intros fuel w e Hon Hrc Hfuel Hfail Hlast o.
  - rewrite Nat.add_0_r in Hlast, Hrc. subst o.
    rewrite (apiCall_fuel_throw _ _ _ _ _ _ Hlast) by (right; lia). auto.
  - destruct fuel as [|fuel]; [lia|].
    destruct (Hfail 0) as [e0 He0]; [lia|]. rewrite Nat.add_0_r in He0.
    subst o. rewrite (apiCall_fuel_retry _ _ _ _ _ _ He0 Hon) by lia.
    cbn [events result world retries].
    set (w1 := with_state _ (ticked w)).
    destruct (IH fuel w1 e) as (Hev & Hres & Hcount).
    + exact Hon.
    + change (retryCount (state w1)) with (S (retryCount (state w))). lia.
    + lia.
    + apply (failures_shift n w); auto.
    + cbn [w1 net clock with_state ticked with_clock].
      replace (S (clock w) + n) with (clock w + S n) by lia. exact Hlast.
    + rewrite Hev, Hres, Hcount. auto.
Qed.

(** The gateway always comes back: the fuel given by [apiCall] is enough
    for every retry the counter allows. *)
Lemma apiCall_fuel_returns : forall fuel w,
  maxRetries config - retryCount (state w) <= fuel ->
  result (apiCall_fuel fuel ep m d w) <> Stuck.
Proof.
  induction fuel as [|fuel IH]; intros w Hfuel.
  - destruct (attempt (net w (clock w) (api_url ep) m)) as [e|env] eqn:Ha.
    + rewrite (apiCall_fuel_throw _ _ _ _ _ _ Ha) by (right; lia). discriminate.
    + rewrite (apiCall_fuel_ret _ _ _ _ _ _ Ha). discriminate.
  - destruct (attempt (net w (clock w) (api_url ep) m)) as [e|env] eqn:Ha.
    + destruct (isOnline (state w)) eqn:Hon.
      * destruct (le_lt_dec (maxRetries config) (retryCount (state w)))
          as [Hle|Hlt].
        -- rewrite (apiCall_fuel_throw _ _ _ _ _ _ Ha) by (right; lia).
           discriminate.
        -- rewrite (apiCall_fuel_retry _ _ _ _ _ _ Ha Hon Hlt).
           cbn [result]. apply IH.
           change (retryCount (state (with_state
                     (set_retryCount (S (retryCount (state w)))) (ticked w))))
             with (S (retryCount (state w))).
           lia.
      * rewrite (apiCall_fuel_throw _ _ _ _ _ _ Ha) by (left; exact Hon).
        discriminate.
    + rewrite (apiCall_fuel_ret _ _ _ _ _ _ Ha). discriminate.
Qed.

Lemma apiCall_returns w : result (apiCall ep m d w) <> Stuck.
Proof. apply apiCall_fuel_returns. lia. Qed.

Lemma apiCall_fuel_starts fuel w :
  exists rest, events (apiCall_fuel fuel ep m d w) = f :: rest.
Proof.
  rewrite apiCall_fuel_unfold. unfold try_catch.
  destruct (attempt (net w (clock w) (api_url ep) m)) as [e|env] eqn:Ha.
  - rewrite (apiCall_try_throw _ _ _ _ _ Ha). cbn. eauto.
  - rewrite (apiCall_try_ret _ _ _ _ _ Ha). cbn. eauto.
Qed.

(** The retry schedule of the gateway in the handler monad, where nothing
    else runs while the call waits.  A call started while the retry
    counter is zero and the page is online: if the first [n <= 3] fetches
    fail at the network level and the next one is answered, the call
    returns the answer after [n] retries, retry [k] coming [k * 1000] ms
    after the failure before it; if the first four fetches fail, the call
    makes its three retries on the same schedule and then throws the
    failure.  A call made while offline throws the failure of its first
    fetch without a retry. *)
Theorem apiCall_retry_schedule w :
  let o := apiCall ep m d w in
  (isOnline (state w) = true -> retryCount (state w) = 0 ->
   (forall n env, n <= 3 ->
      (forall k, k < n ->
         net w (clock w + k) (api_url ep) m = NetworkFailure) ->
      attempt (net w (clock w + n) (api_url ep) m) = inr env ->
      events o = retry_trace f n /\ result o = Ret env) /\
   ((forall k, k < 4 ->
       net w (clock w + k) (api_url ep) m = NetworkFailure) ->
    events o = retry_trace f 3 /\ result o = Throw NetworkError)) /\
  (isOnline (state w) = false ->
   forall e, attempt (net w (clock w) (api_url ep) m) = inl e ->
   events o = [f] /\ result o = Throw e).
Proof.
  intros o. split; [intros Hon Hrc; split|].
  - intros n env Hn Hfail Hok.
    destruct (apiCall_fuel_recovers n (maxRetries config) w env)
      as (Hev & Hres & _).
    + exact Hon.
    + rewrite Hrc. exact Hn.
    + exact Hn.
    + intros k Hk. exists NetworkError. rewrite (Hfail k Hk). reflexivity.
    + exact Hok.
    + rewrite Hrc in Hev. auto.
  - intros Hfail.
    destruct (apiCall_fuel_exhausts 3 (maxRetries config) w NetworkError)
      as (Hev & Hres & _).
    + exact Hon.
    + rewrite Hrc. reflexivity.
    + reflexivity.
    + intros k Hk. exists NetworkError. rewrite (Hfail k) by lia. reflexivity.
    + rewrite (Hfail 3) by lia. reflexivity.
    + rewrite Hrc in Hev. auto.
  - intros Hoff e He. subst o. unfold apiCall.
    rewrite (apiCall_fuel_throw _ _ _ _ _ _ He) by (left; exact Hoff). auto.
Qed.

(** C3, amended.  When the fetch of a call is answered with a status
    outside 200-299: if the page is offline, or the retry counter has
    reached the maximum, the call throws the error carrying the status after
    that one fetch, with no retry; if the page is online and the counter is
    below the maximum, the call waits and issues the same request again. *)
Theorem apiCall_http_error w r :
  net w (clock w) (api_url ep) m = Responds r ->
  status_ok (status r) = false ->
  let o := apiCall ep m d w in
  (isOnline (state w) = false \/ maxRetries config <= retryCount (state w) ->
   events o = [f] /\ result o = Throw (HttpError (status r))) /\
  (isOnline (state w) = true /\ retryCount (state w) < maxRetries config ->
   exists rest,
     events o =
     f :: EvDelay (1000 * Z.of_nat (S (retryCount (state w)))) :: f :: rest).
Proof.
  intros Hnet Hstatus o.
  assert (Ha : attempt (net w (clock w) (api_url ep) m)
               = inl (HttpError (status r))).
  { rewrite Hnet. unfold attempt. rewrite Hstatus. reflexivity. }
  split.
  - intros Hno. subst o. unfold apiCall.
    rewrite (apiCall_fuel_throw _ _ _ _ _ _ Ha Hno). auto.
  - intros [Hon Hlt]. subst o. unfold apiCall.
    change (maxRetries config) with 3 at 1.
    rewrite (apiCall_fuel_retry _ _ _ _ _ _ Ha Hon Hlt). cbn [events].
    destruct (apiCall_fuel_starts 2
                (with_state (set_retryCount (S (retryCount (state w))))
                   (ticked w))) as [rest Hrest].
    exists rest. fold f. rewrite Hrest. reflexivity.
Qed.

End Gateway.

Lemma apiCall_retry_schedule_witness :
  let o := apiCall "/search" GET None (sample_world down_twice [] true) in
  events o =
  [EvFetch "/api/search" GET None; EvDelay 1000;
   EvFetch "/api/search" GET None; EvDelay 2000;
   EvFetch "/api/search" GET None] /\
  result o = Ret sample_envelope.
Proof.
  destruct (apiCall_retry_schedule "/search" GET None
              (sample_world down_twice [] true)) as [H _].
  destruct H as [H _]; [reflexivity | reflexivity |].
  apply (H 2 sample_envelope).
  - lia.
  - intros k Hk. destruct k as [|[|k]]; [reflexivity | reflexivity | lia].
  - reflexivity.
Defined.

Lemma apiCall_http_error_witness :
  let o := apiCall "/dashboard-stats" GET None
             (sample_world always_500 [] false) in
  events o = [EvFetch "/api/dashboard-stats" GET None] /\
  result o = Throw (HttpError 500).
Proof.
  destruct (apiCall_http_error "/dashboard-stats" GET None
              (sample_world always_500 [] false)
              {| status := 500; json := None |}) as [H _].
  - reflexivity.
  - reflexivity.
  - apply H. left. reflexivity.
Defined.

(** C3 as stated fails: online, a 500 from [/dashboard-stats] is retried
    three times before the error reaches the caller. *)
Lemma http_error_retried_online :
  let w := sample_world always_500 [] true in
  let o := apiCall "/dashboard-stats" GET None w in
  events o =
  [EvFetch "/api/dashboard-stats" GET None; EvDelay 1000;
   EvFetch "/api/dashboard-stats" GET None; EvDelay 2000;
   EvFetch "/api/dashboard-stats" GET None; EvDelay 3000;
   EvFetch "/api/dashboard-stats" GET None] /\
  ~ fails_without_retry "/dashboard-stats" GET None w.
Proof.
  split; [reflexivity|].
  intros H. destruct (H {| status := 500; json := None |}) as [Hev _].
  - reflexivity.
  - reflexivity.
  - discriminate Hev.
Qed.

(** ** Order actions that fail offline *)

Lemma apiCall_throw ep m d w e :
  attempt (net w (clock w) (api_url ep) m) = inl e ->
  isOnline (state w) = false \/ maxRetries config <= retryCount (state w) ->
  apiCall ep m d w =
  mkOut [EvFetch (api_url ep) m (request_body m d)] (ticked w) (Throw e).
Proof. apply apiCall_fuel_throw. Qed.

#[local] Arguments apiCall : simpl never.

(** C2, amended.  An order action that the user confirms while the page is
    offline and whose gateway call fails is not put on the replay queue:
    [state.syncQueue] is left as it was, and the failure is reported by an
    error toast only. *)
Theorem failed_order_action_not_queued orderId w :
  isOnline (state w) = false ->
  confirmAnswer w = true ->
  (forall e,
     attempt (net w (clock w) (api_url ("/orders/" +:+ orderId +:+ "/start"))
                POST) = inl e ->
     let o := quickStartOrder orderId w in
     syncQueue (state (world o)) = syncQueue (state w) /\
     events o =
     failed_action_trace "Start this order now?" "Starting order..."
       (api_url ("/orders/" +:+ orderId +:+ "/start"))
       "Failed to start order. Please try again.") /\
  (forall e,
     attempt (net w (clock w) (api_url ("/orders/" +:+ orderId +:+ "/finish"))
                POST) = inl e ->
     let o := quickCompleteOrder orderId w in
     syncQueue (state (world o)) = syncQueue (state w) /\
     events o =
     failed_action_trace "Mark this order as complete?" "Completing order..."
       (api_url ("/orders/" +:+ orderId +:+ "/finish"))
       "Failed to complete order. Please try again.").
Proof.
  intros Hoff Hyes. split; intros e He o; split.
  - apply keeps_quickStartOrder.
  - subst o.
    unfold quickStartOrder, confirm, showLoading, hideLoading, showToast,
      mbind, M_bind, bind, try_finally, try_catch, emit, get, mret, M_ret, ret.
    cbn [result events world]. rewrite Hyes. cbn [negb result events world].
    rewrite (apiCall_throw _ _ _ _ _ He) by (left; exact Hoff).
    reflexivity.
  - apply keeps_quickCompleteOrder.
  - subst o.
    unfold quickCompleteOrder, confirm, showLoading, hideLoading, showToast,
      mbind, M_bind, bind, try_finally, try_catch, emit, get, mret, M_ret, ret.
    cbn [result events world]. rewrite Hyes. cbn [negb result events world].
    rewrite (apiCall_throw _ _ _ _ _ He) by (left; exact Hoff).
    reflexivity.
Qed.

Lemma failed_order_action_not_queued_witness :
  let w := sample_world always_down [start_6] false in
  syncQueue (state (world (quickStartOrder "5" w))) = [start_6] /\
  syncQueue (state (world (quickCompleteOrder "5" w))) = [start_6].
Proof.
  destruct (failed_order_action_not_queued "5"
              (sample_world always_down [start_6] false)) as [Hs Hc].
  - reflexivity.
  - reflexivity.
  - split.
    + apply (Hs NetworkError). reflexivity.
    + apply (Hc NetworkError). reflexivity.
Defined.

(** C2 as stated fails: offline, with the network down, a confirmed
    "start order 5" shows the error toast and the queue stays empty. *)
Lemma offline_start_not_queued :
  let w := sample_world always_down [] false in
  let o := quickStartOrder "5" w in
  isOnline (state w) = false /\
  result (apiCall "/orders/5/start" POST None w) = Throw NetworkError /\
  syncQueue (state (world o)) = [] /\
  ~ queued_for "/orders/5/start" POST
      (syncQueue (state w)) (syncQueue (state (world o))).
Proof.
  repeat split.
  intros [a [Ha _]]. vm_compute in Ha. discriminate Ha.
Qed.

(** ** What starts a refresh *)

Lemma run_callback_idle cb w :
  pageVisibility (state w) = hidden \/ isOnline (state w) = false ->
  run_callback cb w = mkOut [] w (Ret tt).
Proof.
  intros H. destruct cb; unfold run_callback, mbind, M_bind, bind, gets;
    cbn [result events world];
    (destruct H as [-> | ->]; [reflexivity|]);
    rewrite andb_false_r; reflexivity.
Qed.

Lemma timer_fires_idle id w :
  pageVisibility (state w) = hidden \/ isOnline (state w) = false ->
  timer_fires id w = mkOut [] w (Ret tt).
Proof.
  intros H. unfold timer_fires, mbind, M_bind, bind, get.
  cbn [result events world].
  destruct (find _ (timers w)); [|reflexivity].
  rewrite (run_callback_idle _ _ H). reflexivity.
Qed.

Lemma stopRealTimeUpdates_events w : events (stopRealTimeUpdates w) = [].
Proof.
  unfold stopRealTimeUpdates, mbind, M_bind, bind, gets.
  cbn [result events world].
  destruct (refreshTimer (state w)); reflexivity.
Qed.

(** C7, amended.  A tick of an interval timer starts a fetch only if the
    page is visible and online; a visibility-change event starts a fetch
    only if the page has become visible. *)
Theorem refresh_triggers w :
  (forall id,
     initiates_fetch (timer_fires id) w = true ->
     pageVisibility (state w) = visible /\ isOnline (state w) = true) /\
  (forall v,
     initiates_fetch (visibilitychange v) w = true -> v = visible).
Proof.
  split.
  - intros id H.
    destruct (pageVisibility (state w)) eqn:Hv;
      destruct (isOnline (state w)) eqn:Hon; auto;
      unfold initiates_fetch in H; rewrite timer_fires_idle in H by auto;
      discriminate H.
  - intros [|] H; [reflexivity|].
    unfold initiates_fetch, visibilitychange, handleVisibilityChange,
      mbind, M_bind, bind, get, gets, modify in H.
    cbn [result events world state with_state with_visibilityState
         visibilityState pageVisibility set_pageVisibility] in H.
    rewrite bool_decide_eq_false_2 in H by discriminate.
    rewrite stopRealTimeUpdates_events in H. discriminate H.
Qed.

Lemma refresh_triggers_witness :
  let w := world (startRealTimeUpdates (sample_world always_200 [] true)) in
  (pageVisibility (state w) = visible /\ isOnline (state w) = true) /\
  visible = visible.
Proof.
  destruct (refresh_triggers
              (world (startRealTimeUpdates (sample_world always_200 [] true))))
    as [Htick Hvis].
  split.
  - apply (Htick 1). reflexivity.
  - apply (Hvis visible). reflexivity.
Defined.

(** C7 as stated fails: on the dashboard, offline, the page becoming
    visible issues the [/dashboard-stats] fetch. *)
Lemma visible_offline_fetches :
  let w := sample_world always_down [] false in
  isOnline (state w) = false /\
  events (visibilitychange visible w)
  = [EvFetch "/api/dashboard-stats" GET None] /\
  initiates_fetch (visibilitychange visible) w = true.
Proof. repeat split. Qed.

(** The refresh that follows a successful order action looks at neither
    flag: it is issued here although the page is flagged offline. *)
Lemma refresh_after_order_action :
  let w := sample_world always_200 [] false in
  isOnline (state w) = false /\
  events (quickStartOrder "5" w) =
  [EvConfirm "Start this order now?"; EvHideLoading;
   EvShowLoading "Starting order...";
   EvFetch "/api/orders/5/start" POST None;
   EvToast "Order started successfully" "success";
   EvFetch "/api/dashboard-stats" GET None;
   EvUpdateDashboardStats "stats"; EvHideLoading].
Proof. split; reflexivity. Qed.

(** ** The drain pass *)

Lemma splice_length {A} (q : list A) start count :
  length (splice q start count) <= length q.
Proof.
  unfold splice. rewrite length_app, length_take, length_drop.
  destruct (start <? 0)%Z; lia.
Qed.

Lemma syncOfflineActions_body_returns action w :
  let o := syncOfflineActions_body action w in
  result o = Ret tt /\
  length (syncQueue (state (world o))) <= length (syncQueue (state w)).
Proof.
  pose proof (apiCall_returns (endpoint action) (method action) (data action) w)
    as Hret.
  pose proof (keeps_apiCall (endpoint action) (method action) (data action) w)
    as Hkeep.
  unfold syncOfflineActions_body, try_catch, mbind, M_bind, bind, modify,
    mret, M_ret, ret.
  destruct (result (apiCall _ _ _ w)) eqn:Hr; cbn [result events world].
  - split; [reflexivity|].
    cbn [state with_state syncQueue set_syncQueue].
    rewrite <- Hkeep. apply splice_length.
  - rewrite Hkeep. auto.
  - congruence.
Qed.

(** The loop ends: each step moves the index one closer to the end of a
    queue that does not grow. *)
Lemma syncOfflineActions_loop_returns : forall fuel i w,
  length (syncQueue (state w)) - i <= fuel ->
  result (syncOfflineActions_loop fuel i w) = Ret tt.
Proof.
  induction fuel as [|fuel IH]; intros i w Hfuel.
  - unfold syncOfflineActions_loop, mbind, M_bind, bind, gets.
    cbn [result events world].
    rewrite (lookup_ge_None_2 (syncQueue (state w)) i) by lia. reflexivity.
  - cbn [syncOfflineActions_loop]. unfold mbind, M_bind, bind, gets.
    cbn [result events world].
    destruct (syncQueue (state w) !! i) as [action|] eqn:Hi; [|reflexivity].
    apply lookup_lt_Some in Hi.
    destruct (syncOfflineActions_body_returns action w) as [Hres Hlen].
    rewrite Hres. cbn [result]. apply IH. lia.
Qed.

(** A drain pass always comes back, without an exception. *)
Lemma syncOfflineActions_returns w : result (syncOfflineActions w) = Ret tt.
Proof.
  unfold syncOfflineActions, mbind, M_bind, bind, gets.
  cbn [result events world].
  destruct (length (syncQueue (state w)) =? 0); [reflexivity|].
  rewrite syncOfflineActions_loop_returns by lia. reflexivity.
Qed.

Lemma indexOf_from_middle done : forall x rest i,
  Forall (fun y => oid y <> oid x) done ->
  indexOf_from (done ++ x :: rest) x i = (i + Z.of_nat (length done))%Z.
Proof.
  induction done as [|y done IH]; intros x rest i Hdone; cbn [app indexOf_from length].
  - rewrite decide_True by reflexivity. lia.
  - apply Forall_cons in Hdone as [Hy Hdone].
    rewrite decide_False by exact Hy. rewrite IH by exact Hdone. lia.
Qed.

Lemma indexOf_middle done x rest :
  NoDup (oid <$> (done ++ x :: rest)) ->
  indexOf (done ++ x :: rest) x = Z.of_nat (length done).
Proof.
  intros Hnd. unfold indexOf. rewrite indexOf_from_middle; [lia|].
  rewrite fmap_app, fmap_cons in Hnd.
  apply NoDup_app in Hnd as (_ & Hdisj & _).
  apply Forall_forall. intros y Hy Heq.
  apply (Hdisj (oid y)).
  - apply list_elem_of_fmap. eauto.
  - rewrite Heq. apply list_elem_of_here.
Qed.

Lemma splice_middle {A} (done : list A) x rest :
  splice (done ++ x :: rest) (Z.of_nat (length done)) 1 = done ++ rest.
Proof.
  unfold splice. rewrite length_app. cbn [length].
  destruct (Z.ltb_spec (Z.of_nat (length done)) 0) as [Hneg|_]; [lia|].
  replace (Z.min (Z.of_nat (length done)) (Z.of_nat (length done + S (length rest))))
    with (Z.of_nat (length done)) by lia.
  replace (Z.min (Z.max 1 0) (Z.of_nat (length done + S (length rest)) - Z.of_nat (length done)))
    with 1%Z by lia.
  rewrite Nat2Z.id.
  replace (Z.to_nat (Z.of_nat (length done) + 1)) with (length done + 1) by lia.
  rewrite take_app_length.
  rewrite <- drop_drop. rewrite drop_app_length. reflexivity.
Qed.

Lemma syncOfflineActions_body_ok action w env :
  attempt (net w (clock w) (api_url (endpoint action)) (method action))
  = inr env ->
  syncOfflineActions_body action w =
  mkOut [fetch_of action]
    (with_state
       (fun s =>
          set_syncQueue
            (splice (syncQueue s) (indexOf (syncQueue s) action) 1) s)
       (with_state (set_retryCount 0) (ticked w)))
    (Ret tt).
Proof.
  intros Ha.
  unfold syncOfflineActions_body, try_catch, mbind, M_bind, bind, apiCall.
  rewrite (apiCall_fuel_ret _ _ _ _ _ _ Ha). reflexivity.
Qed.

Lemma syncOfflineActions_loop_past_end fuel i w :
  length (syncQueue (state w)) <= i ->
  syncOfflineActions_loop fuel i w = mkOut [] w (Ret tt).
Proof.
  intros Hlen.
  destruct fuel; cbn [syncOfflineActions_loop];
    unfold mbind, M_bind, bind, gets; cbn [result events world];
    rewrite (lookup_ge_None_2 _ _ Hlen); reflexivity.
Qed.

Lemma syncOfflineActions_loop_every_other : forall fuel done rest w,
  always_answers w ->
  syncQueue (state w) = done ++ rest ->
  NoDup (oid <$> (done ++ rest)) ->
  length rest <= fuel ->
  let o := syncOfflineActions_loop fuel (length done) w in
  events o = fetch_of <$> every_other rest /\
  syncQueue (state (world o)) = done ++ every_other (tail rest).
Proof.
  induction fuel as [|fuel IH]; intros done rest w Hnet Hq Hnd Hfuel o.
  - destruct rest; [|cbn in Hfuel; lia]. subst o.
    rewrite syncOfflineActions_loop_past_end
      by (rewrite Hq, app_nil_r; reflexivity).
    cbn [events world tail every_other fmap list_fmap]. auto.
  - subst o. destruct rest as [|x rest].
    + rewrite syncOfflineActions_loop_past_end
        by (rewrite Hq, app_nil_r; reflexivity).
      cbn [events world tail every_other fmap list_fmap]. auto.
    + cbn [syncOfflineActions_loop].
      unfold mbind, M_bind, bind, gets. cbn [result events world].
      rewrite Hq, list_lookup_middle by reflexivity.
      destruct (Hnet (clock w) (api_url (endpoint x)) (method x)) as [env Ha].
      rewrite (syncOfflineActions_body_ok _ _ _ Ha).
      cbn [result events world].
      set (w2 := with_state _ (with_state _ (ticked w))).
      assert (Hq2 : syncQueue (state w2) = done ++ rest).
      { subst w2.
        cbn [state with_state syncQueue set_syncQueue ticked with_clock
             set_retryCount].
        rewrite Hq, indexOf_middle by exact Hnd. apply splice_middle. }
      assert (Hnd2 : NoDup (oid <$> (done ++ rest))).
      { rewrite fmap_app in *. rewrite fmap_cons in Hnd.
        apply NoDup_app in Hnd as (H1 & H2 & H3).
        apply NoDup_cons in H3 as [_ H3].
        apply NoDup_app. split; [exact H1|]. split; [|exact H3].
        intros y Hy Hy'. apply (H2 y Hy). apply list_elem_of_further, Hy'. }
      destruct rest as [|y rest].
      * rewrite syncOfflineActions_loop_past_end
          by (rewrite Hq2, app_nil_r; lia).
        cbn [events world tail every_other fmap list_fmap app].
        rewrite Hq2. auto.
      * destruct (IH (done ++ [y]) rest w2) as [Hev Hqueue].
        -- exact Hnet.
        -- rewrite Hq2, <- app_assoc. reflexivity.
        -- rewrite <- app_assoc. exact Hnd2.
        -- cbn [length] in Hfuel. lia.
        -- rewrite length_app in Hev, Hqueue. cbn [length] in Hev, Hqueue.
           replace (length done + 1) with (S (length done)) in Hev, Hqueue
             by lia.
           destruct (result (syncOfflineActions_loop fuel (S (length done)) w2));
             cbn [events world]; rewrite Hev, Hqueue, <- app_assoc;
             cbn [every_other fmap list_fmap app tail];
             (split; [reflexivity|]); destruct rest; reflexivity.
Qed.

(** A pass over distinct queued objects during which the server answers
    every request replays the actions at positions 0, 2, 4, ... only, and
    leaves those at positions 1, 3, 5, ... in the queue. *)
Lemma syncOfflineActions_every_other w :
  always_answers w ->
  NoDup (oid <$> syncQueue (state w)) ->
  syncQueue (state w) <> [] ->
  let o := syncOfflineActions w in
  events o =
  (fetch_of <$> every_other (syncQueue (state w)))
    ++ [EvToast "Offline actions synced successfully" "success"] /\
  syncQueue (state (world o)) = every_other (tail (syncQueue (state w))).
Proof.
  intros Hnet Hnd Hne o.
  destruct (syncOfflineActions_loop_every_other
              (length (syncQueue (state w))) [] (syncQueue (state w)) w)
    as [Hev Hqueue]; auto.
  assert (Hres : result (syncOfflineActions_loop
                          (length (syncQueue (state w))) 0 w) = Ret tt)
    by (apply syncOfflineActions_loop_returns; lia).
  cbn [length app] in Hev, Hqueue.
  subst o. unfold syncOfflineActions, mbind, M_bind, bind, gets, showToast, emit.
  cbn [result events world].
  destruct (length (syncQueue (state w)) =? 0) eqn:Hlen.
  - apply Nat.eqb_eq in Hlen. destruct (syncQueue (state w)); [congruence|].
    discriminate Hlen.
  - rewrite Hres. cbn [result events world]. rewrite Hev, Hqueue. auto.
Qed.

(** So a pass that meets no failure still leaves work behind as soon as
    two actions are queued. *)
Lemma syncOfflineActions_leaves_second a b rest w :
  always_answers w ->
  syncQueue (state w) = a :: b :: rest ->
  NoDup (oid <$> syncQueue (state w)) ->
  exists rest', syncQueue (state (world (syncOfflineActions w))) = b :: rest'.
Proof.
  intros Hnet Hq Hnd.
  destruct (syncOfflineActions_every_other w Hnet Hnd) as [_ Hqueue].
  - rewrite Hq. discriminate.
  - rewrite Hqueue, Hq. cbn [tail every_other]. eauto.
Qed.

(** C1: the code does not do what the claim says.  With "start order 5"
    and "finish order 5" queued and a server that answers every request,
    the pass issues the start call only, and "finish order 5" is still
    queued when the pass ends with its success toast. *)
Theorem drain_skips_after_success :
  let w := sample_world always_200 [start_5; finish_5] true in
  let o := syncOfflineActions w in
  events o =
  [EvFetch "/api/orders/5/start" POST None;
   EvToast "Offline actions synced successfully" "success"] /\
  syncQueue (state (world o)) = [finish_5] /\
  result o = Ret tt.
Proof. repeat split. Qed.

(** C4: the code does not do what the claim says.  With three actions
    queued and the first one refused on every attempt, the second is
    replayed and removed, and the third is never attempted; the refused
    action stays queued. *)
Theorem drain_skips_after_failure :
  let w := sample_world start_5_refused [start_5; finish_5; start_6] true in
  let o := syncOfflineActions w in
  events o =
  [EvFetch "/api/orders/5/start" POST None; EvDelay 1000;
   EvFetch "/api/orders/5/start" POST None; EvDelay 2000;
   EvFetch "/api/orders/5/start" POST None; EvDelay 3000;
   EvFetch "/api/orders/5/start" POST None;
   EvFetch "/api/orders/5/finish" POST None;
   EvToast "Offline actions synced successfully" "success"] /\
  syncQueue (state (world o)) = [start_5; start_6] /\
  result o = Ret tt.
Proof. repeat split. Qed.

(** ** Handlers that come back *)

Lemma ns_of_returns {A} (c : M A) : always_returns c -> never_stuck c.
Proof. intros H w. destruct (H w) as [a ->]. discriminate. Qed.

Lemma ns_ret {A} (a : A) : never_stuck (ret a).
Proof. intros w. discriminate. Qed.

Lemma ns_mret {A} (a : A) : never_stuck (mret a : M A).
Proof. intros w. discriminate. Qed.

Lemma ns_throw {A} e : never_stuck (@throw A e).
Proof. intros w. discriminate. Qed.

Lemma ns_emit e : never_stuck (emit e).
Proof. intros w. discriminate. Qed.

Lemma ns_get : never_stuck get.
Proof. intros w. discriminate. Qed.

Lemma ns_gets {A} (g : State -> A) : never_stuck (gets g).
Proof. intros w. discriminate. Qed.

Lemma ns_modify g : never_stuck (modify g).
Proof. intros w. discriminate. Qed.

Lemma ns_fetch url m body : never_stuck (fetch url m body).
Proof. intros w. unfold fetch. destruct (net w (clock w) url m); discriminate. Qed.

Lemma ns_bind {A B} (c : M A) (k : A -> M B) :
  never_stuck c -> (forall a, never_stuck (k a)) -> never_stuck (c ≫= k).
Proof.
  intros Hc Hk w. unfold mbind, M_bind, bind.
  destruct (result (c w)) eqn:Hr; cbn [result].
  - apply Hk.
  - discriminate.
  - destruct (Hc w Hr).
Qed.

Lemma ns_try_catch {A} (c : M A) h :
  never_stuck c -> (forall e, never_stuck (h e)) -> never_stuck (try_catch c h).
Proof.
  intros Hc Hh w. unfold try_catch.
  destruct (result (c w)) eqn:Hr; cbn [result]; rewrite ?Hr.
  - discriminate.
  - apply Hh.
  - destruct (Hc w Hr).
Qed.

Lemma ns_try_finally {A} (c : M A) fin :
  never_stuck c -> never_stuck fin -> never_stuck (try_finally c fin).
Proof.
  intros Hc Hf w. unfold try_finally.
  destruct (result (c w)) eqn:Hr; cbn [result].
  - destruct (result (fin _)) eqn:Hfin; [discriminate..|]. destruct (Hf _ Hfin).
  - destruct (result (fin _)) eqn:Hfin; [discriminate..|]. destruct (Hf _ Hfin).
  - destruct (Hc w Hr).
Qed.

Lemma ns_detached {A} (c : M A) : never_stuck c -> never_stuck (detached c).
Proof.
  intros Hc w. unfold detached. cbn [result].
  destruct (result (c w)) eqn:Hr; [discriminate..|]. destruct (Hc w Hr).
Qed.

Lemma ns_apiCall ep m d : never_stuck (apiCall ep m d).
Proof. intros w. apply apiCall_returns. Qed.

Ltac ns_known :=
  first
    [ apply ns_ret | apply ns_mret | apply ns_throw | apply ns_emit
    | apply ns_get | apply ns_gets | apply ns_modify | apply ns_fetch
    | apply ns_apiCall | assumption ].

Ltac solve_never_stuck :=
  repeat first
    [ progress intros
    | lazymatch goal with
      | |- never_stuck (if ?b then _ else _) => destruct b
      | |- never_stuck (match ?x with _ => _ end) => destruct x
      | |- never_stuck (mbind _ _) => apply ns_bind
      | |- never_stuck (try_catch _ _) => apply ns_try_catch
      | |- never_stuck (try_finally _ _) => apply ns_try_finally
      | |- never_stuck (detached _) => apply ns_detached
      | |- never_stuck _ => ns_known
      end ].

Lemma ns_refreshCurrentPage : never_stuck refreshCurrentPage.
Proof.
  unfold refreshCurrentPage, shouldRefreshCurrentPage, updateDashboardStats.
  solve_never_stuck.
Qed.

Lemma ar_ret {A} (a : A) : always_returns (ret a).
Proof. intros w. eexists. reflexivity. Qed.

Lemma ar_mret {A} (a : A) : always_returns (mret a : M A).
Proof. intros w. eexists. reflexivity. Qed.

Lemma ar_emit e : always_returns (emit e).
Proof. intros w. eexists. reflexivity. Qed.

Lemma ar_get : always_returns get.
Proof. intros w. eexists. reflexivity. Qed.

Lemma ar_gets {A} (g : State -> A) : always_returns (gets g).
Proof. intros w. eexists. reflexivity. Qed.

Lemma ar_modify g : always_returns (modify g).
Proof. intros w. eexists. reflexivity. Qed.

Lemma ar_setInterval cb ms : always_returns (setInterval cb ms).
Proof. intros w. eexists. reflexivity. Qed.

Lemma ar_clearInterval id : always_returns (clearInterval id).
Proof. intros w. eexists. reflexivity. Qed.

Lemma ar_bind {A B} (c : M A) (k : A -> M B) :
  always_returns c -> (forall a, always_returns (k a)) ->
  always_returns (c ≫= k).
Proof.
  intros Hc Hk w. unfold mbind, M_bind, bind.
  destruct (Hc w) as [a ->]. cbn [result]. apply Hk.
Qed.

Lemma ar_try_catch {A} (c : M A) h :
  never_stuck c -> (forall e, always_returns (h e)) ->
  always_returns (try_catch c h).
Proof.
  intros Hc Hh w. unfold try_catch.
  destruct (result (c w)) eqn:Hr; cbn [result].
  - rewrite Hr. eauto.
  - apply Hh.
  - destruct (Hc w Hr).
Qed.

Lemma ar_try_finally {A} (c : M A) fin :
  always_returns c -> always_returns fin -> always_returns (try_finally c fin).
Proof.
  intros Hc Hf w. unfold try_finally.
  destruct (Hc w) as [a ->]. cbn [result].
  destruct (Hf (world (c w))) as [u ->]. eauto.
Qed.

Lemma ar_detached {A} (c : M A) : never_stuck c -> always_returns (detached c).
Proof.
  intros Hc w. unfold detached. cbn [result].
  destruct (result (c w)) eqn:Hr; [eauto..|]. destruct (Hc w Hr).
Qed.

Ltac ar_known :=
  first
    [ apply ar_ret | apply ar_mret | apply ar_emit | apply ar_get
    | apply ar_gets | apply ar_modify | apply ar_setInterval
    | apply ar_clearInterval | assumption ].

Ltac solve_always_returns :=
  repeat first
    [ progress intros
    | lazymatch goal with
      | |- always_returns (if ?b then _ else _) => destruct b
      | |- always_returns (match ?x with _ => _ end) => destruct x
      | |- always_returns (mbind _ _) => apply ar_bind
      | |- always_returns (try_catch _ _) => apply ar_try_catch
      | |- always_returns (try_finally _ _) => apply ar_try_finally
      | |- always_returns (detached _) => apply ar_detached
      | |- always_returns _ => ar_known
      | |- never_stuck _ => solve_never_stuck
      end ].

Lemma ar_refreshCurrentPage : always_returns refreshCurrentPage.
Proof.
  unfold refreshCurrentPage, shouldRefreshCurrentPage, updateDashboardStats.
  solve_always_returns.
Qed.

Ltac ns_known ::=
  first
    [ apply ns_ret | apply ns_mret | apply ns_throw | apply ns_emit
    | apply ns_get | apply ns_gets | apply ns_modify | apply ns_fetch
    | apply ns_apiCall | apply ns_refreshCurrentPage | assumption ].

Lemma ar_quickStartOrder orderId : always_returns (quickStartOrder orderId).
Proof.
  unfold quickStartOrder, confirm, showLoading, hideLoading, showToast.
  solve_always_returns.
Qed.

Lemma ar_quickCompleteOrder orderId :
  always_returns (quickCompleteOrder orderId).
Proof.
  unfold quickCompleteOrder, confirm, showLoading, hideLoading, showToast.
  solve_always_returns.
Qed.

Lemma unit_returns (c : M unit) w : always_returns c -> result (c w) = Ret tt.
Proof. intros H. destruct (H w) as [[] Hr]. exact Hr. Qed.

Lemma try_finally_events {A} (c : M A) e w :
  result (c w) <> Stuck ->
  events (try_finally c (emit e) w) = events (c w) ++ [e].
Proof.
  intros H. unfold try_finally, emit.
  destruct (result (c w)); [reflexivity | reflexivity | contradiction].
Qed.

Ltac confirmed Hyes :=
  unfold confirm, mbind, M_bind, bind, emit, get, mret, M_ret, ret;
  cbn [result events world]; rewrite Hyes; cbn [negb result events world app];
  fold (emit EvHideLoading).

(** The body of the [try] starts by showing the overlay, whatever comes
    next. *)
Lemma shown_first {A} msg (k : unit -> M A) h w :
  exists rest,
    events (try_catch (showLoading msg ≫= k) h w)
    = EvHideLoading :: EvShowLoading msg :: rest.
Proof.
  unfold try_catch, showLoading, hideLoading, emit, mbind, M_bind, bind.
  cbn [result events world].
  destruct (result (k tt w)); cbn [events app]; eauto.
Qed.

(** Names the body of the [try ... finally], checks that it comes back,
    and reads the removal of the overlay off the [finally] block. *)
Ltac overlay_removed Hyes w :=
  lazymatch goal with
  | |- context [try_finally (try_catch (showLoading ?msg ≫= ?k) ?h)
                  hideLoading] =>
      let body := fresh "body" in
      let Hbody := fresh "Hbody" in
      let rest := fresh "rest" in
      let Hrest := fresh "Hrest" in
      destruct (shown_first msg k h w) as [rest Hrest];
      set (body := try_catch (showLoading msg ≫= k) h) in *;
      assert (Hbody : never_stuck body)
        by (subst body; unfold showLoading, hideLoading, showToast;
            solve_never_stuck);
      unfold hideLoading; confirmed Hyes;
      rewrite (try_finally_events body EvHideLoading _ (Hbody _));
      rewrite Hrest;
      exists (rest ++ [EvHideLoading]); split;
        [reflexivity | apply elem_of_app; right; apply list_elem_of_here]
  end.

(** X4. Starting or completing an order never throws, whatever the gateway
    does. When the user declines the confirmation nothing happens beyond the
    dialog; when the user confirms, the loading overlay is shown right after
    the dialog and is removed again afterwards. *)
Theorem order_actions_always_return orderId w :
  (result (quickStartOrder orderId w) = Ret tt /\
   result (quickCompleteOrder orderId w) = Ret tt) /\
  (confirmAnswer w = false ->
   quickStartOrder orderId w
   = mkOut [EvConfirm "Start this order now?"] w (Ret tt) /\
   quickCompleteOrder orderId w
   = mkOut [EvConfirm "Mark this order as complete?"] w (Ret tt)) /\
  (confirmAnswer w = true ->
   (exists rest,
      events (quickStartOrder orderId w)
      = EvConfirm "Start this order now?" :: EvHideLoading
          :: EvShowLoading "Starting order..." :: rest /\
      EvHideLoading ∈ rest) /\
   (exists rest,
      events (quickCompleteOrder orderId w)
      = EvConfirm "Mark this order as complete?" :: EvHideLoading
          :: EvShowLoading "Completing order..." :: rest /\
      EvHideLoading ∈ rest)).
Proof.
  split; [|split].
  - split; apply unit_returns;
      [apply ar_quickStartOrder | apply ar_quickCompleteOrder].
  - intros Hno.
    unfold quickStartOrder, quickCompleteOrder, confirm, mbind, M_bind, bind,
      emit, get, mret, M_ret, ret.
    cbn [result events world]. rewrite Hno. split; reflexivity.
  - intros Hyes. split.
    + unfold quickStartOrder. overlay_removed Hyes w.
    + unfold quickCompleteOrder. overlay_removed Hyes w.
Qed.

Lemma order_actions_always_return_witness :
  let w := sample_world always_down [] false in
  EvHideLoading ∈ drop 3 (events (quickStartOrder "5" w)) /\
  EvHideLoading ∈ drop 3 (events (quickCompleteOrder "5" w)).
Proof.
  destruct (order_actions_always_return "5"
              (sample_world always_down [] false)) as (_ & _ & H).
  destruct H as [(r1 & H1 & Hin1) (r2 & H2 & Hin2)]; [reflexivity|].
  cbv zeta. rewrite H1, H2. split; [exact Hin1 | exact Hin2].
Defined.

(** ** Invariants of the world *)

Section Preserves.

Variable I : World -> Prop.

Lemma pr_ret {A} (a : A) : preserves I (ret a).
Proof. intros w H. exact H. Qed.

Lemma pr_mret {A} (a : A) : preserves I (mret a : M A).
Proof. intros w H. exact H. Qed.

Lemma pr_throw {A} e : preserves I (@throw A e).
Proof. intros w H. exact H. Qed.

Lemma pr_stuck {A} : preserves I (@stuck A).
Proof. intros w H. exact H. Qed.

Lemma pr_emit e : preserves I (emit e).
Proof. intros w H. exact H. Qed.

Lemma pr_get : preserves I get.
Proof. intros w H. exact H. Qed.

Lemma pr_gets {A} (g : State -> A) : preserves I (gets g).
Proof. intros w H. exact H. Qed.

Lemma pr_modify g :
  (forall w, I w -> I (with_state g w)) -> preserves I (modify g).
Proof. intros Hg w H. apply Hg, H. Qed.

Lemma pr_fetch url m body :
  (forall w c, I w -> I (with_clock c w)) -> preserves I (fetch url m body).
Proof.
  intros Hc w H. unfold fetch.
  destruct (net w (clock w) url m); apply Hc, H.
Qed.

Lemma pr_bind {A B} (c : M A) (k : A -> M B) :
  preserves I c -> (forall a, preserves I (k a)) -> preserves I (c ≫= k).
Proof.
  intros Hc Hk w H. unfold mbind, M_bind, bind.
  destruct (result (c w)) eqn:Hr; cbn [world]; [|apply Hc, H..].
  apply Hk, Hc, H.
Qed.

Lemma pr_try_catch {A} (c : M A) h :
  preserves I c -> (forall e, preserves I (h e)) -> preserves I (try_catch c h).
Proof.
  intros Hc Hh w H. unfold try_catch.
  destruct (result (c w)) eqn:Hr; cbn [world]; [apply Hc, H| |apply Hc, H].
  apply Hh, Hc, H.
Qed.

Lemma pr_try_finally {A} (c : M A) fin :
  preserves I c -> preserves I fin -> preserves I (try_finally c fin).
Proof.
  intros Hc Hf w H. unfold try_finally.
  destruct (result (c w)) eqn:Hr; cbn [world];
    [apply Hf, Hc, H | apply Hf, Hc, H | apply Hc, H].
Qed.

Lemma pr_detached {A} (c : M A) : preserves I c -> preserves I (detached c).
Proof. intros Hc w H. apply Hc, H. Qed.

End Preserves.

(** Follows the structure of a handler; [leaf] closes the goals about the
    primitives that write to the world. *)
Ltac solve_preserves leaf :=
  repeat first
    [ progress intros
    | lazymatch goal with
      | |- preserves _ (if ?b then _ else _) => destruct b
      | |- preserves _ (match ?x with _ => _ end) => destruct x
      | |- preserves _ (mbind _ _) => apply pr_bind
      | |- preserves _ (try_catch _ _) => apply pr_try_catch
      | |- preserves _ (try_finally _ _) => apply pr_try_finally
      | |- preserves _ (detached _) => apply pr_detached
      | |- preserves _ (modify _) => apply pr_modify; leaf
      | |- preserves _ (fetch _ _ _) => apply pr_fetch; leaf
      | |- preserves _ (ret _) => apply pr_ret
      | |- preserves _ (mret _) => apply pr_mret
      | |- preserves _ (throw _) => apply pr_throw
      | |- preserves _ stuck => apply pr_stuck
      | |- preserves _ (emit _) => apply pr_emit
      | |- preserves _ get => apply pr_get
      | |- preserves _ (gets _) => apply pr_gets
      | |- preserves _ _ => first [ assumption | leaf ]
      end ].

(** ** What the gateway changes *)

Lemma gateway_frame_refl w : gateway_frame w w.
Proof.
  exists (retryCount (state w)), (clock w).
  destruct w as [[] ? ? ? ? ? ? ?]. reflexivity.
Qed.

Lemma gateway_frame_clock w0 w c :
  gateway_frame w0 w -> gateway_frame w0 (with_clock c w).
Proof. intros (rc & c0 & ->). exists rc, c. reflexivity. Qed.

Lemma gateway_frame_retryCount w0 w n :
  gateway_frame w0 w -> gateway_frame w0 (with_state (set_retryCount n) w).
Proof. intros (rc & c0 & ->). exists n, c0. reflexivity. Qed.

Ltac gateway_leaf :=
  intros;
  lazymatch goal with
  | |- gateway_frame _ (with_clock _ _) =>
      apply gateway_frame_clock; assumption
  | |- gateway_frame _ (with_state (set_retryCount _) _) =>
      apply gateway_frame_retryCount; assumption
  end.

Lemma pr_frame_apiCall_fuel w0 fuel ep m d :
  preserves (gateway_frame w0) (apiCall_fuel fuel ep m d).
Proof.
  induction fuel as [|fuel IH]; cbn [apiCall_fuel];
    unfold apiCall_try, apiCall_catch, response_json, delay;
    solve_preserves gateway_leaf.
Qed.

Lemma apiCall_frame ep m d w : gateway_frame w (world (apiCall ep m d w)).
Proof. apply pr_frame_apiCall_fuel, gateway_frame_refl. Qed.

(** ** The cost of a call *)

Section Account.

Variables (ep : string) (m : Method) (d : option string).

Let f : Event := EvFetch (api_url ep) m (request_body m d).

Lemma apiCall_fuel_account : forall fuel w,
  maxRetries config - retryCount (state w) <= fuel ->
  let o := apiCall_fuel fuel ep m d w in
  clock (world o) = clock w + fetches (events o) /\
  match result o with
  | Ret _ => retryCount (state (world o)) = 0
  | Throw _ =>
      retryCount (state (world o)) =
      if isOnline (state w)
      then Nat.max (retryCount (state w)) (maxRetries config)
      else retryCount (state w)
  | Stuck => False
  end /\
  (1 <= fetches (events o) <=
   S (maxRetries config - retryCount (state w))) /\
  (0 <= total_delay (events o) <= delay_budget (retryCount (state w)))%Z /\
  Forall (fun e => e = f \/ exists ms, e = EvDelay ms) (events o).
Proof.
  assert (Hbudget : forall rc, (0 <= delay_budget rc)%Z).
  { intros rc. unfold delay_budget.
    destruct rc as [|[|[|rc]]]; cbn; lia. }
  induction fuel as [|fuel IH]; intros w Hfuel o; subst o.
  - destruct (attempt (net w (clock w) (api_url ep) m)) as [e|env] eqn:Ha.
    + rewrite (apiCall_fuel_throw _ _ _ _ _ _ Ha) by (right; lia).
      cbn [events world result fetches is_fetch total_delay clock ticked
           with_clock state].
      repeat split; try lia.
      * destruct (isOnline (state w)); lia.
      * apply Hbudget.
      * apply Forall_singleton. left. reflexivity.
    + rewrite (apiCall_fuel_ret _ _ _ _ _ _ Ha).
      cbn [events world result fetches is_fetch total_delay clock ticked
           with_clock with_state state retryCount set_retryCount].
      repeat split; try lia.
      * apply Hbudget.
      * apply Forall_singleton. left. reflexivity.
  - destruct (attempt (net w (clock w) (api_url ep) m)) as [e|env] eqn:Ha.
    + destruct (isOnline (state w)) eqn:Hon;
        [destruct (le_lt_dec (maxRetries config) (retryCount (state w)))
           as [Hle|Hlt]|].
      * rewrite (apiCall_fuel_throw _ _ _ _ _ _ Ha) by (right; lia).
        cbn [events world result fetches is_fetch total_delay clock ticked
             with_clock state].
        repeat split; try lia.
        -- apply Hbudget.
        -- apply Forall_singleton. left. reflexivity.
      * rewrite (apiCall_fuel_retry _ _ _ _ _ _ Ha Hon Hlt).
        set (w1 := with_state _ (ticked w)).
        destruct (IH w1) as (Hclock & Hres & Hfetch & Hdelay & Hall).
        { change (retryCount (state w1)) with (S (retryCount (state w))).
          lia. }
        change (retryCount (state w1)) with (S (retryCount (state w)))
          in Hres, Hfetch, Hdelay.
        change (isOnline (state w1)) with (isOnline (state w)) in Hres.
        change (clock w1) with (S (clock w)) in Hclock.
        rewrite Hon in Hres.
        cbn [events world result fetches is_fetch total_delay].
        fold f. repeat split; try lia.
        -- destruct (result (apiCall_fuel fuel ep m d w1)); [exact Hres| |exact Hres].
           rewrite Hres. lia.
        -- revert Hdelay. unfold delay_budget.
           change (maxRetries config) with 3 in Hlt.
           destruct (retryCount (state w)) as [|[|[|rc]]]; cbn; lia.
        -- apply Forall_cons. split; [left; reflexivity|].
           apply Forall_cons. split; [right; eauto | exact Hall].
      * rewrite (apiCall_fuel_throw _ _ _ _ _ _ Ha) by (left; exact Hon).
        cbn [events world result fetches is_fetch total_delay clock ticked
             with_clock state].
        repeat split; try lia.
        -- apply Hbudget.
        -- apply Forall_singleton. left. reflexivity.
    + rewrite (apiCall_fuel_ret _ _ _ _ _ _ Ha).
      cbn [events world result fetches is_fetch total_delay clock ticked
           with_clock with_state state retryCount set_retryCount].
      repeat split; try lia.
      * apply Hbudget.
      * apply Forall_singleton. left. reflexivity.
Qed.

(** In the handler monad, where nothing else runs while the call waits, a
    call costs at most four requests, all of them the same, and at most six
    seconds of waiting, whatever the network and the state. *)
Theorem apiCall_bounded w :
  let o := apiCall ep m d w in
  1 <= fetches (events o) <= 4 /\
  (0 <= total_delay (events o) <= 6000)%Z /\
  Forall (fun e => e = f \/ exists ms, e = EvDelay ms) (events o).
Proof.
  intros o.
  destruct (apiCall_fuel_account (maxRetries config) w)
    as (_ & _ & Hfetch & Hdelay & Hall); [lia|].
  fold (apiCall ep m d) in *. fold o in Hfetch, Hdelay, Hall.
  change (maxRetries config) with 3 in Hfetch.
  assert (delay_budget (retryCount (state w)) <= 6000)%Z.
  { unfold delay_budget.
    destruct (retryCount (state w)) as [|[|[|rc]]]; cbn; lia. }
  repeat split; try lia. exact Hall.
Qed.

(** X2. A call changes nothing in the world but the retry counter and the
    position in the network script, which moves by the number of fetches; the
    counter is zero after an answer, unchanged after a failure offline, and at
    least the maximum after a failure online. *)
Theorem apiCall_touches_only_the_counter w :
  let o := apiCall ep m d w in
  gateway_frame w (world o) /\
  clock (world o) = clock w + fetches (events o) /\
  (forall env, result o = Ret env -> retryCount (state (world o)) = 0) /\
  (forall e, result o = Throw e ->
     retryCount (state (world o)) =
     if isOnline (state w)
     then Nat.max (retryCount (state w)) (maxRetries config)
     else retryCount (state w)).
Proof.
  intros o.
  destruct (apiCall_fuel_account (maxRetries config) w)
    as (Hclock & Hres & _); [lia|].
  fold (apiCall ep m d) in *. fold o in Hclock, Hres.
  split; [apply apiCall_frame|]. split; [exact Hclock|].
  split; intros x Hx; rewrite Hx in Hres; exact Hres.
Qed.

End Account.

(** X3. Once a call has used up the retries, the counter stays at the maximum:
    the next call that fails, to any endpoint, is not retried, although the
    page is online. *)
Theorem exhausted_retries_stay_exhausted ep m d ep' m' d' w e' :
  isOnline (state w) = true ->
  retryCount (state w) = 0 ->
  (forall k, k < 4 -> fails (net w (clock w + k) (api_url ep) m)) ->
  attempt (net w (clock w + 4) (api_url ep') m') = inl e' ->
  let o1 := apiCall ep m d w in
  let o2 := apiCall ep' m' d' (world o1) in
  isOnline (state (world o1)) = true /\
  events o2 = [EvFetch (api_url ep') m' (request_body m' d')] /\
  result o2 = Throw e'.
Proof.
  intros Hon Hrc Hfail Hnext o1 o2.
  destruct (Hfail 3) as [e He]; [lia|].
  destruct (apiCall_fuel_exhausts ep m d 3 (maxRetries config) w e)
    as (Hev & _ & Hcount); auto.
  { rewrite Hrc. reflexivity. }
  destruct (apiCall_fuel_account ep m d (maxRetries config) w)
    as (Hclock & _); [lia|].
  fold (apiCall ep m d) in Hev, Hcount, Hclock. fold o1 in Hev, Hcount, Hclock.
  rewrite Hev in Hclock. cbn [fetches retries is_fetch] in Hclock.
  destruct (apiCall_frame ep m d w) as (rc & c & Hw). fold o1 in Hw.
  assert (Hnet : net (world o1) = net w) by (rewrite Hw; reflexivity).
  assert (Hon1 : isOnline (state (world o1)) = true)
    by (rewrite Hw; exact Hon).
  split; [exact Hon1|].
  subst o2. rewrite (apiCall_throw ep' m' d' (world o1) e').
  - auto.
  - rewrite Hnet, Hclock.
    replace (clock w + (1 + (0 + (1 + (0 + (1 + (0 + (1 + 0))))))))
      with (clock w + 4) by lia.
    exact Hnext.
  - right. rewrite Hcount. lia.
Qed.

Lemma exhausted_retries_stay_exhausted_witness :
  let o1 := apiCall "/search" GET None (sample_world always_down [] true) in
  let o2 := apiCall "/dashboard-stats" GET None (world o1) in
  isOnline (state (world o1)) = true /\
  events o2 = [EvFetch "/api/dashboard-stats" GET None] /\
  result o2 = Throw NetworkError.
Proof.
  apply (exhausted_retries_stay_exhausted "/search" GET None
           "/dashboard-stats" GET None (sample_world always_down [] true)
           NetworkError).
  - reflexivity.
  - reflexivity.
  - intros k _. exists NetworkError. reflexivity.
  - reflexivity.
Defined.

Lemma apiCall_touches_only_the_counter_witness :
  retryCount
    (state (world (apiCall "/search" GET None
                     (sample_world down_twice [] true)))) = 0.
Proof.
  destruct (apiCall_touches_only_the_counter "/search" GET None
              (sample_world down_twice [] true)) as (_ & _ & Hret & _).
  apply (Hret sample_envelope). reflexivity.
Defined.

(** ** More on the drain pass *)

Lemma take_drop_sublist {A} (q : list A) k k' :
  k <= k' -> take k q ++ drop k' q `sublist_of` q.
Proof.
  intros Hk. rewrite <- (take_drop k q) at 3.
  apply sublist_app; [reflexivity|].
  replace k' with (k + (k' - k)) by lia.
  rewrite <- drop_drop. apply sublist_drop.
Qed.

Lemma splice_sublist {A} (q : list A) start count :
  splice q start count `sublist_of` q.
Proof.
  unfold splice. apply take_drop_sublist.
  destruct (Z.ltb_spec start 0); lia.
Qed.

Lemma pr_of_keeps {A} (P : list PendingAction -> Prop) (c : M A) :
  keeps_queue c -> preserves (fun w => P (syncQueue (state w))) c.
Proof. intros Hc w H. rewrite Hc. exact H. Qed.

Lemma pr_sublist_body q0 action :
  preserves (fun w => syncQueue (state w) `sublist_of` q0)
    (syncOfflineActions_body action).
Proof.
  unfold syncOfflineActions_body.
  apply pr_try_catch; [apply pr_bind|]; intros.
  - apply (pr_of_keeps (fun q => q `sublist_of` q0)), keeps_apiCall.
  - apply pr_modify. intros w H.
    cbn [state with_state syncQueue set_syncQueue].
    etransitivity; [apply splice_sublist | exact H].
  - apply pr_mret.
Qed.

Lemma pr_sublist_loop q0 fuel : forall i,
  preserves (fun w => syncQueue (state w) `sublist_of` q0)
    (syncOfflineActions_loop fuel i).
Proof.
  induction fuel as [|fuel IH]; intros i; cbn [syncOfflineActions_loop];
    apply pr_bind; [apply pr_gets| |apply pr_gets|]; intros q;
    destruct (q !! i); try apply pr_mret; try apply pr_stuck.
  apply pr_bind; [apply pr_sublist_body|]. intros _. apply IH.
Qed.

Lemma pr_sublist_syncOfflineActions q0 :
  preserves (fun w => syncQueue (state w) `sublist_of` q0) syncOfflineActions.
Proof.
  unfold syncOfflineActions, showToast.
  apply pr_bind; [apply pr_gets|]. intros q.
  destruct (length q =? 0); [apply pr_mret|].
  apply pr_bind; [apply pr_sublist_loop|]. intros _. apply pr_emit.
Qed.

(** X6. Whatever the network does, a drain pass only removes actions: what is
    queued afterwards is what was queued before, in the same order, with some
    actions missing. *)
Theorem drain_only_removes w :
  syncQueue (state (world (syncOfflineActions w)))
    `sublist_of` syncQueue (state w).
Proof. apply pr_sublist_syncOfflineActions. reflexivity. Qed.

(** X7. With nothing queued a drain pass does nothing at all; with something
    queued it always ends with the toast that announces success, whether or
    not any action could be replayed. *)
Theorem drain_announces_success w :
  (syncQueue (state w) = [] -> syncOfflineActions w = mkOut [] w (Ret tt)) /\
  (syncQueue (state w) <> [] ->
   last (events (syncOfflineActions w))
   = Some (EvToast "Offline actions synced successfully" "success")).
Proof.
  split; intros Hq.
  - unfold syncOfflineActions, mbind, M_bind, bind, gets.
    cbn [result events world]. rewrite Hq. reflexivity.
  - assert (Hres : result (syncOfflineActions_loop
                            (length (syncQueue (state w))) 0 w) = Ret tt)
      by (apply syncOfflineActions_loop_returns; lia).
    unfold syncOfflineActions, mbind, M_bind, bind, gets, showToast, emit.
    cbn [result events world].
    destruct (length (syncQueue (state w)) =? 0) eqn:Hlen.
    + apply Nat.eqb_eq in Hlen.
      destruct (syncQueue (state w)); [congruence | discriminate Hlen].
    + rewrite Hres. cbn [result events world]. apply last_snoc.
Qed.

Lemma drain_announces_success_witness :
  last (events (syncOfflineActions
                  (sample_world always_down [start_5] false)))
  = Some (EvToast "Offline actions synced successfully" "success").
Proof.
  destruct (drain_announces_success
              (sample_world always_down [start_5] false)) as [_ H].
  apply H. discriminate.
Defined.

Lemma syncOfflineActions_body_throw action w e :
  attempt (net w (clock w) (api_url (endpoint action)) (method action))
  = inl e ->
  isOnline (state w) = false \/ maxRetries config <= retryCount (state w) ->
  syncOfflineActions_body action w = mkOut [fetch_of action] (ticked w) (Ret tt).
Proof.
  intros Ha Hno.
  unfold syncOfflineActions_body, try_catch, mbind, M_bind, bind.
  rewrite (apiCall_throw _ _ _ _ _ Ha Hno). reflexivity.
Qed.

Lemma syncOfflineActions_loop_all_fail rest : forall fuel done w,
  always_fails w ->
  isOnline (state w) = false \/ maxRetries config <= retryCount (state w) ->
  syncQueue (state w) = done ++ rest ->
  length rest <= fuel ->
  let o := syncOfflineActions_loop fuel (length done) w in
  events o = fetch_of <$> rest /\
  syncQueue (state (world o)) = done ++ rest.
Proof.
  induction rest as [|x rest IH]; intros fuel done w Hnet Hno Hq Hfuel o;
    subst o.
  - rewrite syncOfflineActions_loop_past_end
      by (rewrite Hq, app_nil_r; reflexivity).
    auto.
  - destruct fuel as [|fuel]; [cbn in Hfuel; lia|].
    cbn [syncOfflineActions_loop].
    unfold mbind, M_bind, bind, gets. cbn [result events world].
    rewrite Hq, list_lookup_middle by reflexivity.
    destruct (Hnet (clock w) (api_url (endpoint x)) (method x)) as [e Ha].
    rewrite (syncOfflineActions_body_throw _ _ _ Ha Hno).
    cbn [result events world].
    destruct (IH fuel (done ++ [x]) (ticked w)) as [Hev Hqueue].
    + exact Hnet.
    + exact Hno.
    + change (syncQueue (state (ticked w))) with (syncQueue (state w)).
      rewrite Hq, <- app_assoc. reflexivity.
    + cbn [length] in Hfuel. lia.
    + rewrite length_app in Hev, Hqueue. cbn [length] in Hev, Hqueue.
      replace (length done + 1) with (S (length done)) in Hev, Hqueue by lia.
      destruct (result (syncOfflineActions_loop fuel (S (length done))
                          (ticked w)));
        cbn [events world]; rewrite Hev, Hqueue, <- app_assoc; auto.
Qed.

Lemma syncOfflineActions_nonempty w :
  syncQueue (state w) <> [] ->
  let l := syncOfflineActions_loop (length (syncQueue (state w))) 0 w in
  syncOfflineActions w =
  mkOut (events l ++ [EvToast "Offline actions synced successfully" "success"])
    (world l) (Ret tt).
Proof.
  intros Hq l.
  assert (Hres : result l = Ret tt)
    by (apply syncOfflineActions_loop_returns; lia).
  unfold syncOfflineActions, mbind, M_bind, bind, gets, showToast, emit.
  cbn [result events world].
  destruct (length (syncQueue (state w)) =? 0) eqn:Hlen.
  - apply Nat.eqb_eq in Hlen.
    destruct (syncQueue (state w)); [congruence | discriminate Hlen].
  - fold l. rewrite Hres. reflexivity.
Qed.

Lemma syncOfflineActions_loop_step fuel i w action :
  syncQueue (state w) !! i = Some action ->
  let b := syncOfflineActions_body action w in
  let l := syncOfflineActions_loop fuel (S i) (world b) in
  syncOfflineActions_loop (S fuel) i w =
  mkOut (events b ++ events l) (world l) (result l).
Proof.
  intros Hi b l.
  destruct (syncOfflineActions_body_returns action w) as [Hres _].
  cbn [syncOfflineActions_loop]. unfold mbind, M_bind, bind, gets.
  cbn [result events world]. rewrite Hi, Hres. reflexivity.
Qed.

Lemma syncOfflineActions_body_caught action w e :
  result (apiCall (endpoint action) (method action) (data action) w)
  = Throw e ->
  syncOfflineActions_body action w =
  mkOut (events (apiCall (endpoint action) (method action) (data action) w))
    (world (apiCall (endpoint action) (method action) (data action) w))
    (Ret tt).
Proof.
  intros H. unfold syncOfflineActions_body, try_catch, mbind, M_bind, bind.
  rewrite H. cbn [result events world]. unfold mret, M_ret, ret.
  cbn [result events world]. rewrite app_nil_r. reflexivity.
Qed.

(** The first call of a pass during which every request fails: it is
    retried as far as the counter allows, throws, and leaves a world in
    which no later call is retried. *)
Lemma apiCall_always_fails ep m d w :
  always_fails w ->
  let o := apiCall ep m d w in
  let f := EvFetch (api_url ep) m (request_body m d) in
  (exists e, result o = Throw e) /\
  events o =
  f :: (if isOnline (state w)
        then retries f (S (retryCount (state w)))
               (maxRetries config - retryCount (state w))
        else []) /\
  (isOnline (state (world o)) = false \/
   maxRetries config <= retryCount (state (world o))).
Proof.
  intros Hnet o f. subst o.
  destruct (isOnline (state w)) eqn:Hon;
    [destruct (le_lt_dec (maxRetries config) (retryCount (state w)))
       as [Hle|Hlt]|].
  - destruct (Hnet (clock w) (api_url ep) m) as [e Ha].
    rewrite (apiCall_throw _ _ _ _ _ Ha) by (right; exact Hle).
    cbn [result events world].
    replace (maxRetries config - retryCount (state w)) with 0 by lia.
    split; [eauto|]. split; [reflexivity|]. right. exact Hle.
  - set (n := maxRetries config - retryCount (state w)).
    destruct (Hnet (clock w + n) (api_url ep) m) as [e Ha].
    destruct (apiCall_fuel_exhausts ep m d n (maxRetries config) w e)
      as (Hev & Hres & Hcount); auto.
    + subst n. lia.
    + subst n. lia.
    + fold (apiCall ep m d) in Hev, Hres, Hcount.
      rewrite Hev, Hres, Hcount. split; [eauto|]. split; [reflexivity|].
      right. lia.
  - destruct (Hnet (clock w) (api_url ep) m) as [e Ha].
    rewrite (apiCall_throw _ _ _ _ _ Ha) by (left; exact Hon).
    cbn [result events world]. split; [eauto|]. split; [reflexivity|].
    left. exact Hon.
Qed.

(** X8. A pass during which every request fails attempts every queued action
    once, in the order of the queue (the first one with the retries that the
    counter still allows), removes nothing, and still announces success. *)
Theorem drain_when_every_call_fails w a rest :
  always_fails w ->
  syncQueue (state w) = a :: rest ->
  let o := syncOfflineActions w in
  syncQueue (state (world o)) = a :: rest /\
  events o =
  (fetch_of a ::
     (if isOnline (state w)
      then retries (fetch_of a) (S (retryCount (state w)))
             (maxRetries config - retryCount (state w))
      else []))
    ++ (fetch_of <$> rest)
    ++ [EvToast "Offline actions synced successfully" "success"].
Proof.
  intros Hnet Hq o. subst o.
  rewrite syncOfflineActions_nonempty by (rewrite Hq; discriminate).
  rewrite Hq. cbn [length].
  rewrite (syncOfflineActions_loop_step _ _ _ a) by (rewrite Hq; reflexivity).
  destruct (apiCall_always_fails (endpoint a) (method a) (data a) w Hnet)
    as ([e Hres] & Hev & Hno).
  rewrite (syncOfflineActions_body_caught _ _ _ Hres).
  cbn [events world result].
  set (o1 := apiCall (endpoint a) (method a) (data a) w) in *.
  destruct (apiCall_frame (endpoint a) (method a) (data a) w)
    as (rc & c & Hw). fold o1 in Hw.
  destruct (syncOfflineActions_loop_all_fail rest (length rest) [a] (world o1))
    as [Hev2 Hqueue].
  - intros n url m. rewrite Hw. apply Hnet.
  - exact Hno.
  - rewrite Hw. cbn [state with_state with_clock syncQueue set_retryCount].
    exact Hq.
  - lia.
  - cbn [length] in Hev2, Hqueue. rewrite Hev2, Hqueue, Hev.
    split; [reflexivity|].
    unfold fetch_of at 1 2. rewrite <- !app_assoc. reflexivity.
Qed.

Lemma drain_when_every_call_fails_witness :
  let o := syncOfflineActions
             (sample_world always_down [start_5; finish_5] true) in
  syncQueue (state (world o)) = [start_5; finish_5] /\
  events o =
  [EvFetch "/api/orders/5/start" POST None; EvDelay 1000;
   EvFetch "/api/orders/5/start" POST None; EvDelay 2000;
   EvFetch "/api/orders/5/start" POST None; EvDelay 3000;
   EvFetch "/api/orders/5/start" POST None;
   EvFetch "/api/orders/5/finish" POST None;
   EvToast "Offline actions synced successfully" "success"].
Proof.
  apply (drain_when_every_call_fails
           (sample_world always_down [start_5; finish_5] true)
           start_5 [finish_5]).
  - intros n url m. exists NetworkError. reflexivity.
  - reflexivity.
Defined.

(** X9. A pass over distinct queued objects during which every request is
    answered replays every other action, starting with the first, and leaves
    the others queued: with two or more actions queued, the queue is not empty
    afterwards. *)
Theorem drain_without_failure w :
  always_answers w ->
  NoDup (oid <$> syncQueue (state w)) ->
  syncQueue (state w) <> [] ->
  let o := syncOfflineActions w in
  events o =
  (fetch_of <$> every_other (syncQueue (state w)))
    ++ [EvToast "Offline actions synced successfully" "success"] /\
  syncQueue (state (world o)) = every_other (tail (syncQueue (state w))) /\
  result o = Ret tt /\
  (2 <= length (syncQueue (state w)) -> syncQueue (state (world o)) <> []).
Proof.
  intros Hnet Hnd Hne o.
  destruct (syncOfflineActions_every_other w Hnet Hnd Hne) as [Hev Hqueue].
  fold o in Hev, Hqueue.
  split; [exact Hev|]. split; [exact Hqueue|].
  split; [apply syncOfflineActions_returns|].
  intros Hlen. rewrite Hqueue.
  destruct (syncQueue (state w)) as [|a [|b q]]; cbn in Hlen; try lia.
  discriminate.
Qed.

Lemma drain_without_failure_witness :
  let o := syncOfflineActions
             (sample_world always_200 [start_5; finish_5; start_6] true) in
  events o =
  [EvFetch "/api/orders/5/start" POST None;
   EvFetch "/api/orders/6/start" POST None;
   EvToast "Offline actions synced successfully" "success"] /\
  syncQueue (state (world o)) = [finish_5].
Proof.
  destruct (drain_without_failure
              (sample_world always_200 [start_5; finish_5; start_6] true))
    as (Hev & Hqueue & _).
  - intros n url m. exists sample_envelope. reflexivity.
  - apply (bool_decide_unpack _). reflexivity.
  - discriminate.
  - split; [exact Hev | exact Hqueue].
Defined.

(** ** The scheduler *)

Lemma scheduler_frame_refl w : scheduler_frame w w.
Proof. repeat split. Qed.

Ltac scheduler_leaf :=
  intros; match goal with H : _ |- _ => exact H end.

Lemma pr_scheduler_apiCall_fuel w0 fuel ep m d :
  preserves (scheduler_frame w0) (apiCall_fuel fuel ep m d).
Proof.
  induction fuel as [|fuel IH]; cbn [apiCall_fuel];
    unfold apiCall_try, apiCall_catch, response_json, delay;
    solve_preserves scheduler_leaf.
Qed.

Lemma pr_scheduler_apiCall w0 ep m d :
  preserves (scheduler_frame w0) (apiCall ep m d).
Proof. apply pr_scheduler_apiCall_fuel. Qed.

Lemma pr_scheduler_refreshCurrentPage w0 :
  preserves (scheduler_frame w0) refreshCurrentPage.
Proof.
  unfold refreshCurrentPage, shouldRefreshCurrentPage, updateDashboardStats.
  solve_preserves ltac:(apply pr_scheduler_apiCall).
Qed.

Lemma pr_scheduler_loop w0 fuel : forall i,
  preserves (scheduler_frame w0) (syncOfflineActions_loop fuel i).
Proof.
  induction fuel as [|fuel IH]; intros i; cbn [syncOfflineActions_loop];
    unfold syncOfflineActions_body;
    solve_preserves
      ltac:(idtac; lazymatch goal with
            | |- preserves _ (apiCall _ _ _) => apply pr_scheduler_apiCall
            | |- preserves _ (syncOfflineActions_loop _ _) => apply IH
            | |- _ => scheduler_leaf
            end).
Qed.

Lemma pr_scheduler_syncOfflineActions w0 :
  preserves (scheduler_frame w0) syncOfflineActions.
Proof.
  unfold syncOfflineActions, showToast.
  solve_preserves ltac:(apply pr_scheduler_loop).
Qed.

Lemma pr_scheduler_quickStartOrder w0 orderId :
  preserves (scheduler_frame w0) (quickStartOrder orderId).
Proof.
  unfold quickStartOrder, confirm, showLoading, hideLoading, showToast.
  solve_preserves
    ltac:(idtac; lazymatch goal with
          | |- preserves _ (apiCall _ _ _) => apply pr_scheduler_apiCall
          | |- preserves _ refreshCurrentPage =>
              apply pr_scheduler_refreshCurrentPage
          end).
Qed.

Lemma pr_scheduler_quickCompleteOrder w0 orderId :
  preserves (scheduler_frame w0) (quickCompleteOrder orderId).
Proof.
  unfold quickCompleteOrder, confirm, showLoading, hideLoading, showToast.
  solve_preserves
    ltac:(idtac; lazymatch goal with
          | |- preserves _ (apiCall _ _ _) => apply pr_scheduler_apiCall
          | |- preserves _ refreshCurrentPage =>
              apply pr_scheduler_refreshCurrentPage
          end).
Qed.

Lemma timers_ok_frame w w' :
  scheduler_frame w w' -> timers_ok w -> timers_ok w'.
Proof.
  intros (Ht & _ & Hr & _) H. unfold timers_ok in *.
  rewrite Hr, Ht. exact H.
Qed.

Lemma timers_ok_of_frame {A} (c : M A) :
  (forall w0, preserves (scheduler_frame w0) c) -> preserves timers_ok c.
Proof.
  intros Hc w H. apply (timers_ok_frame w); [|exact H].
  apply Hc, scheduler_frame_refl.
Qed.

(** Clearing the one timer of the page leaves none. *)
Lemma clear_own_timer w :
  timers_ok w ->
  match refreshTimer (state w) with
  | Some id => filter (fun t => timer_id t <> id) (timers w) = []
  | None => timers w = []
  end.
Proof.
  unfold timers_ok. destruct (refreshTimer (state w)) as [id|]; [|auto].
  intros (cb & ms & ->). rewrite filter_cons_False; [reflexivity|].
  cbn. intros H. apply H. reflexivity.
Qed.

Lemma startRealTimeUpdates_online w :
  timers_ok w -> isOnline (state w) = true ->
  let o := startRealTimeUpdates w in
  timers (world o) = [refresh_timer (nextTimer w)] /\
  refreshTimer (state (world o)) = Some (nextTimer w) /\
  nextTimer (world o) = S (nextTimer w) /\
  events o = [] /\
  result o = Ret tt /\
  isOnline (state (world o)) = true /\
  syncQueue (state (world o)) = syncQueue (state w).
Proof.
  intros Hok Hon o. subst o. pose proof (clear_own_timer w Hok) as Hclear.
  unfold startRealTimeUpdates, mbind, M_bind, bind, gets.
  cbn [result events world]. rewrite Hon. cbn [negb].
  destruct (refreshTimer (state w)) as [id|];
    unfold clearInterval, setInterval, modify, mret, M_ret, ret;
    cbn [result events world timers state with_state with_timers
         refreshTimer set_refreshTimer nextTimer app isOnline syncQueue];
    rewrite Hclear; repeat split; assumption.
Qed.

Lemma startRealTimeUpdates_offline w :
  isOnline (state w) = false -> startRealTimeUpdates w = mkOut [] w (Ret tt).
Proof.
  intros Hoff. unfold startRealTimeUpdates, mbind, M_bind, bind, gets.
  cbn [result events world]. rewrite Hoff. reflexivity.
Qed.

Lemma stopRealTimeUpdates_stops w :
  timers_ok w ->
  let o := stopRealTimeUpdates w in
  timers (world o) = [] /\ refreshTimer (state (world o)) = None /\
  nextTimer (world o) = nextTimer w /\ events o = [] /\
  result o = Ret tt /\
  isOnline (state (world o)) = isOnline (state w) /\
  syncQueue (state (world o)) = syncQueue (state w).
Proof.
  intros Hok o. subst o. pose proof (clear_own_timer w Hok) as Hclear.
  unfold stopRealTimeUpdates, mbind, M_bind, bind, gets.
  cbn [result events world].
  destruct (refreshTimer (state w)) as [id|] eqn:Hr;
    unfold clearInterval, modify, mret, M_ret, ret;
    cbn [result events world timers state with_state with_timers
         refreshTimer set_refreshTimer nextTimer app isOnline syncQueue];
    rewrite ?Hclear; repeat split; assumption.
Qed.

Lemma setupQueueAutoRefresh_arms w :
  timers_ok w ->
  let o := setupQueueAutoRefresh w in
  timers (world o) = [reload_timer (nextTimer w)] /\
  refreshTimer (state (world o)) = Some (nextTimer w) /\
  nextTimer (world o) = S (nextTimer w) /\
  isOnline (state (world o)) = isOnline (state w).
Proof.
  intros Hok o. subst o. pose proof (clear_own_timer w Hok) as Hclear.
  unfold setupQueueAutoRefresh, mbind, M_bind, bind, gets.
  cbn [result events world].
  destruct (refreshTimer (state w)) as [id|];
    unfold clearInterval, setInterval, modify, mret, M_ret, ret;
    cbn [result events world timers state with_state with_timers
         refreshTimer set_refreshTimer nextTimer app isOnline];
    rewrite Hclear; auto.
Qed.

Lemma timers_ok_single w id t :
  timers w = [t] -> refreshTimer (state w) = Some id -> timer_id t = id ->
  timers_ok w.
Proof.
  intros Ht Hr Hid. unfold timers_ok. rewrite Hr, Ht.
  destruct t as [i cb ms]. cbn in Hid. subst i. eauto.
Qed.

Lemma timers_ok_none w :
  timers w = [] -> refreshTimer (state w) = None -> timers_ok w.
Proof. intros Ht Hr. unfold timers_ok. rewrite Hr. exact Ht. Qed.

Lemma pr_timers_startRealTimeUpdates : preserves timers_ok startRealTimeUpdates.
Proof.
  intros w Hok. destruct (isOnline (state w)) eqn:Hon.
  - destruct (startRealTimeUpdates_online w Hok Hon) as (Ht & Hr & _).
    apply (timers_ok_single _ _ _ Ht Hr). reflexivity.
  - rewrite startRealTimeUpdates_offline by exact Hon. exact Hok.
Qed.

Lemma pr_timers_stopRealTimeUpdates : preserves timers_ok stopRealTimeUpdates.
Proof.
  intros w Hok. destruct (stopRealTimeUpdates_stops w Hok) as (Ht & Hr & _).
  apply timers_ok_none; assumption.
Qed.

Lemma pr_timers_setupQueueAutoRefresh :
  preserves timers_ok setupQueueAutoRefresh.
Proof.
  intros w Hok. destruct (setupQueueAutoRefresh_arms w Hok) as (Ht & Hr & _).
  apply (timers_ok_single _ _ _ Ht Hr). reflexivity.
Qed.

Ltac timers_leaf :=
  idtac;
  lazymatch goal with
  | |- preserves _ startRealTimeUpdates =>
      apply pr_timers_startRealTimeUpdates
  | |- preserves _ stopRealTimeUpdates =>
      apply pr_timers_stopRealTimeUpdates
  | |- preserves _ refreshCurrentPage =>
      apply timers_ok_of_frame; intros; apply pr_scheduler_refreshCurrentPage
  | |- preserves _ syncOfflineActions =>
      apply timers_ok_of_frame; intros; apply pr_scheduler_syncOfflineActions
  | |- preserves _ (quickStartOrder _) =>
      apply timers_ok_of_frame; intros; apply pr_scheduler_quickStartOrder
  | |- preserves _ (quickCompleteOrder _) =>
      apply timers_ok_of_frame; intros; apply pr_scheduler_quickCompleteOrder
  | |- _ => scheduler_leaf
  end.

Lemma pr_timers_dispatch ev : preserves timers_ok (dispatch ev).
Proof.
  destruct ev as [| |v|id|orderId|orderId]; cbn [dispatch].
  - unfold handleOnline, updateConnectionIndicator, hideOfflineBanner,
      showToast.
    solve_preserves timers_leaf.
  - unfold handleOffline, updateConnectionIndicator, showOfflineBanner,
      showToast.
    solve_preserves timers_leaf.
  - intros w Hok. unfold visibilitychange.
    assert (H : preserves timers_ok handleVisibilityChange).
    { unfold handleVisibilityChange. solve_preserves timers_leaf. }
    apply H. exact Hok.
  - unfold timer_fires, run_callback. solve_preserves timers_leaf.
  - unfold handleSwipeLeft. solve_preserves timers_leaf.
  - unfold handleSwipeRight. solve_preserves timers_leaf.
Qed.

(** X10. The scheduler never holds more than one interval timer of its own
    (the refresh timer of [startRealTimeUpdates] or the reload timer of
    [setupQueueAutoRefresh]): from a world in which its only timer, if any, is
    the one recorded in [state.refreshTimer], this is still so after any
    sequence of connectivity, visibility, timer and swipe events.  The
    timers of the number animation are not counted. *)
Theorem at_most_one_timer evs : forall w,
  timers_ok w ->
  timers_ok (after_events evs w) /\ length (timers (after_events evs w)) <= 1.
Proof.
  induction evs as [|ev evs IH]; intros w Hok; cbn [after_events].
  - split; [exact Hok|]. unfold timers_ok in Hok.
    destruct (refreshTimer (state w)).
    + destruct Hok as (cb & ms & ->). reflexivity.
    + rewrite Hok. cbn. lia.
  - apply IH, pr_timers_dispatch, Hok.
Qed.

Lemma at_most_one_timer_witness :
  length
    (timers
       (after_events
          [Online; VisibilityChange hidden; VisibilityChange visible;
           TimerFires 3; Offline; Online]
          (sample_world always_200 [start_5] false))) <= 1.
Proof.
  destruct (at_most_one_timer
              [Online; VisibilityChange hidden; VisibilityChange visible;
               TimerFires 3; Offline; Online]
              (sample_world always_200 [start_5] false)) as [_ H].
  - reflexivity.
  - exact H.
Defined.

(** X11. On the queue page the reload timer armed by [initializeQueue] is the
    only timer; the [startRealTimeUpdates] that [init] runs next replaces it
    with the refresh timer when the page is online (no reload timer is left),
    and leaves it alone when the page is offline. *)
Theorem queue_reload_timer_replaced w :
  timers_ok w ->
  let w1 := world (initializeQueue w) in
  let w2 := world (startRealTimeUpdates w1) in
  timers w1 = [reload_timer (nextTimer w)] /\
  (isOnline (state w) = true ->
   timers w2 = [refresh_timer (S (nextTimer w))]) /\
  (isOnline (state w) = false ->
   timers w2 = [reload_timer (nextTimer w)]).
Proof.
  intros Hok w1 w2. unfold initializeQueue in w1.
  destruct (setupQueueAutoRefresh_arms w Hok) as (Ht & Hr & Hn & Hon).
  fold w1 in Ht, Hr, Hn, Hon.
  assert (Hok1 : timers_ok w1)
    by (apply (timers_ok_single _ _ _ Ht Hr); reflexivity).
  split; [exact Ht|]. split; intros Hflag; rewrite <- Hon in Hflag.
  - destruct (startRealTimeUpdates_online w1 Hok1 Hflag) as (Ht2 & _).
    fold w2 in Ht2. rewrite Ht2, Hn. reflexivity.
  - subst w2. rewrite startRealTimeUpdates_offline by exact Hflag. exact Ht.
Qed.

Lemma queue_reload_timer_replaced_witness :
  let w := sample_world always_200 [] true in
  timers (world (startRealTimeUpdates (world (initializeQueue w))))
  = [refresh_timer 2].
Proof.
  destruct (queue_reload_timer_replaced (sample_world always_200 [] true))
    as (_ & Hon & _).
  - reflexivity.
  - apply Hon. reflexivity.
Defined.

Lemma bind_ret {A B} (c : M A) (k : A -> M B) w a :
  result (c w) = Ret a ->
  (c ≫= k) w =
  mkOut (events (c w) ++ events (k a (world (c w))))
    (world (k a (world (c w)))) (result (k a (world (c w)))).
Proof. intros H. unfold mbind, M_bind, bind. rewrite H. reflexivity. Qed.

(** X12. Going offline clears the flag, stops the one timer, shows the
    indicator, the banner and the warning, and leaves the queue alone. *)
Theorem going_offline w :
  timers_ok w ->
  let o := handleOffline w in
  isOnline (state (world o)) = false /\
  timers (world o) = [] /\
  refreshTimer (state (world o)) = None /\
  syncQueue (state (world o)) = syncQueue (state w) /\
  events o =
  [EvConnectionIndicator false; EvOfflineBanner true;
   EvToast "You're offline. Some features may be limited." "warning"].
Proof.
  intros Hok o. subst o.
  unfold handleOffline, updateConnectionIndicator, showOfflineBanner,
    showToast.
  rewrite (bind_ret _ _ _ tt) by reflexivity.
  rewrite (bind_ret _ _ _ tt) by reflexivity.
  rewrite (bind_ret _ _ _ tt) by reflexivity.
  cbn [world events modify emit].
  set (w1 := with_state (set_isOnline false) w).
  assert (Hok1 : timers_ok w1) by exact Hok.
  destruct (stopRealTimeUpdates_stops w1 Hok1)
    as (Ht & Hr & _ & Hev & Hres & Hon & Hq).
  rewrite (bind_ret _ _ _ tt) by exact Hres.
  cbn [world events emit result]. rewrite Hev, Ht, Hr, Hon, Hq. auto.
Qed.

Lemma going_offline_witness :
  let w := world (startRealTimeUpdates (sample_world always_200 [start_5] true)) in
  timers (world (handleOffline w)) = [] /\
  syncQueue (state (world (handleOffline w))) = [start_5].
Proof.
  destruct (going_offline
              (world (startRealTimeUpdates
                        (sample_world always_200 [start_5] true))))
    as (_ & Ht & _ & Hq & _).
  - exists RefreshTick, 30000%Z. reflexivity.
  - split; [exact Ht | exact Hq].
Defined.

(** X13. Coming back online sets the flag, updates the indicator and hides
    the banner first, announces the restored connection, never adds to the
    queue, and leaves exactly one timer of the scheduler armed: a fresh
    refresh timer. *)
Theorem coming_online w :
  timers_ok w ->
  let o := handleOnline w in
  isOnline (state (world o)) = true /\
  timers (world o) = [refresh_timer (nextTimer w)] /\
  refreshTimer (state (world o)) = Some (nextTimer w) /\
  syncQueue (state (world o)) `sublist_of` syncQueue (state w) /\
  exists rest,
    events o = EvConnectionIndicator true :: EvOfflineBanner false :: rest /\
    EvToast "Connection restored" "success" ∈ rest.
Proof.
  intros Hok o. subst o.
  unfold handleOnline, updateConnectionIndicator, hideOfflineBanner, showToast.
  rewrite (bind_ret _ _ _ tt) by reflexivity.
  rewrite (bind_ret _ _ _ tt) by reflexivity.
  rewrite (bind_ret _ _ _ tt) by reflexivity.
  cbn [world events modify emit].
  set (w1 := with_state (set_isOnline true) w).
  assert (Hdrain : result (detached syncOfflineActions w1) = Ret tt).
  { unfold detached. cbn [result]. rewrite syncOfflineActions_returns.
    reflexivity. }
  rewrite (bind_ret _ _ _ tt) by exact Hdrain.
  change (world (detached syncOfflineActions w1))
    with (world (syncOfflineActions w1)).
  change (events (detached syncOfflineActions w1))
    with (events (syncOfflineActions w1)).
  set (w2 := world (syncOfflineActions w1)).
  assert (Hframe : scheduler_frame w1 w2)
    by (apply pr_scheduler_syncOfflineActions, scheduler_frame_refl).
  assert (Hok2 : timers_ok w2) by (apply (timers_ok_frame w1); assumption).
  destruct Hframe as (_ & Hn & _ & Hon & _).
  destruct (startRealTimeUpdates_online w2 Hok2 Hon)
    as (Ht & Hr & _ & Hev & Hres & Hon' & Hq).
  rewrite (bind_ret _ _ _ tt) by exact Hres.
  cbn [world events emit result]. rewrite Hev, Ht, Hr, Hon', Hq, Hn.
  repeat split.
  - apply (pr_sublist_syncOfflineActions (syncQueue (state w)) w1).
    reflexivity.
  - eexists. split; [reflexivity|].
    apply elem_of_app. right. apply elem_of_app. right.
    apply list_elem_of_here.
Qed.

Lemma coming_online_witness :
  let w := sample_world always_200 [start_5] false in
  timers (world (handleOnline w)) = [refresh_timer 1] /\
  isOnline (state (world (handleOnline w))) = true.
Proof.
  destruct (coming_online (sample_world always_200 [start_5] false))
    as (Hon & Ht & _).
  - reflexivity.
  - split; [exact Ht | exact Hon].
Defined.

(** ** The refresh *)

Lemma pr_frame_refreshCurrentPage w0 :
  preserves (gateway_frame w0) refreshCurrentPage.
Proof.
  unfold refreshCurrentPage, shouldRefreshCurrentPage, updateDashboardStats.
  solve_preserves
    ltac:(idtac; lazymatch goal with
          | |- preserves _ (apiCall _ _ _) => apply pr_frame_apiCall_fuel
          end).
Qed.

(** X5. A refresh never throws, changes nothing in the world but the retry
    counter and the position in the network script, and does nothing at all on
    a page whose path contains none of the refreshable paths. *)
Theorem refresh_is_contained w :
  result (refreshCurrentPage w) = Ret tt /\
  gateway_frame w (world (refreshCurrentPage w)) /\
  (existsb (fun path => includes (pathname w) path) refreshablePages = false ->
   refreshCurrentPage w = mkOut [] w (Ret tt)).
Proof.
  split; [|split].
  - apply unit_returns, ar_refreshCurrentPage.
  - apply pr_frame_refreshCurrentPage, gateway_frame_refl.
  - intros Hpath.
    unfold refreshCurrentPage, shouldRefreshCurrentPage, try_catch, mbind,
      M_bind, bind, get, mret, M_ret, ret.
    cbn [result events world]. rewrite Hpath. reflexivity.
Qed.

Lemma refresh_is_contained_witness :
  let w := customers_page (sample_world always_200 [] true) in
  refreshCurrentPage w = mkOut [] w (Ret tt).
Proof.
  destruct (refresh_is_contained
              (customers_page (sample_world always_200 [] true)))
    as (_ & _ & H).
  apply H. reflexivity.
Defined.

(** ** A call that has the page to itself, and calls in flight together *)

Section Isolated.

Variables (ep : string) (m : Method) (d : option string).

Let f : Event := EvFetch (api_url ep) m (request_body m d).

Lemma issue_bind (k : Suspended -> M Suspended) w :
  (issue ep m d ≫= k) w =
  let o := k (AtFetch (net w (clock w) (api_url ep) m)) (ticked w) in
  mkOut (f :: events o) (world o) (result o).
Proof. reflexivity. Qed.

Lemma alone_settled n r w :
  alone n ep m d (Settled r) w = mkOut [] w (Ret (Settled r)).
Proof.
  induction n as [|n IH]; [reflexivity|].
  cbn [alone resume]. unfold mbind, M_bind, bind, ret.
  cbn [result world events].
  rewrite IH. reflexivity.
Qed.

Lemma caught_alone_throw n e w :
  isOnline (state w) = false \/ maxRetries config <= retryCount (state w) ->
  (caught e ≫= alone n ep m d) w = mkOut [] w (Ret (Settled (Throw e))).
Proof.
  intros Hno.
  assert (Hc : caught e w = mkOut [] w (Ret (Settled (Throw e)))).
  { unfold caught, mbind, M_bind, bind, gets. cbn [result world events].
    assert (Hb : isOnline (state w)
                 && (retryCount (state w) <? maxRetries config) = false).
    { destruct Hno as [Hoff|Hmax].
      - rewrite Hoff. reflexivity.
      - apply andb_false_iff. right. apply Nat.ltb_ge. exact Hmax. }
    rewrite Hb. reflexivity. }
  unfold mbind, M_bind, bind. rewrite Hc. cbn [result world events].
  rewrite alone_settled. reflexivity.
Qed.

Lemma caught_alone_retry n e w :
  isOnline (state w) = true ->
  retryCount (state w) < maxRetries config ->
  (caught e ≫= alone (S n) ep m d) w =
  let o := (issue ep m d ≫= alone n ep m d)
             (with_state (set_retryCount (S (retryCount (state w)))) w) in
  mkOut (EvDelay (1000 * Z.of_nat (S (retryCount (state w)))) :: events o)
    (world o) (result o).
Proof.
  intros Hon Hlt.
  assert (Hc : caught e w =
               mkOut [EvDelay (1000 * Z.of_nat (S (retryCount (state w))))]
                 (with_state (set_retryCount (S (retryCount (state w)))) w)
                 (Ret AtDelay)).
  { unfold caught, mbind, M_bind, bind, gets. cbn [result world events].
    rewrite Hon. apply Nat.ltb_lt in Hlt. rewrite Hlt. reflexivity. }
  unfold mbind, M_bind, bind at 1. rewrite Hc. reflexivity.
Qed.

(** What a failed attempt leads to, when the call has the page to itself
    and the rest of the call is known to agree with the gateway. *)
Lemma failed_attempt_alone fuel n e w :
  maxRetries config - retryCount (state w) <= fuel ->
  attempt (net w (clock w) (api_url ep) m) = inl e ->
  (forall fuel' w', fuel = S fuel' ->
     maxRetries config - retryCount (state w') <= fuel' ->
     (issue ep m d ≫= alone n ep m d) w'
     = settled (apiCall_fuel fuel' ep m d w')) ->
  let o := (caught e ≫= alone (S n) ep m d) (ticked w) in
  mkOut (f :: events o) (world o) (result o)
  = settled (apiCall_fuel fuel ep m d w).
Proof.
  intros Hfuel Ha IH o. subst o.
  destruct (isOnline (state w)) eqn:Hon;
    [destruct (le_lt_dec (maxRetries config) (retryCount (state w)))
       as [Hle|Hlt]|].
  - rewrite caught_alone_throw by (right; exact Hle).
    rewrite (apiCall_fuel_throw _ _ _ _ _ _ Ha) by (right; exact Hle).
    reflexivity.
  - destruct fuel as [|fuel]; [lia|].
    rewrite (caught_alone_retry n e (ticked w) Hon Hlt).
    rewrite (apiCall_fuel_retry _ _ _ _ _ _ Ha Hon Hlt).
    cbn [events world result].
    rewrite (IH fuel _ eq_refl).
    + reflexivity.
    + change (retryCount (state (with_state
                (set_retryCount (S (retryCount (state (ticked w)))))
                (ticked w))))
        with (S (retryCount (state w))).
      lia.
  - rewrite caught_alone_throw by (left; exact Hon).
    rewrite (apiCall_fuel_throw _ _ _ _ _ _ Ha) by (left; exact Hon).
    reflexivity.
Qed.

(** One attempt of a call that has the page to itself, the rest of the
    call being known to agree with the gateway. *)
Lemma attempt_alone fuel n w :
  maxRetries config - retryCount (state w) <= fuel ->
  (forall k fuel' w', n <= k -> fuel = S fuel' ->
     maxRetries config - retryCount (state w') <= fuel' ->
     (issue ep m d ≫= alone k ep m d) w'
     = settled (apiCall_fuel fuel' ep m d w')) ->
  (issue ep m d ≫= alone (S (S (S n))) ep m d) w
  = settled (apiCall_fuel fuel ep m d w).
Proof.
  intros Hfuel IH. rewrite issue_bind.
  destruct (net w (clock w) (api_url ep) m) as [|r] eqn:Hnet.
  - apply failed_attempt_alone;
      [exact Hfuel | rewrite Hnet; reflexivity | intros; apply IH; auto].
  - change (alone (S (S (S n))) ep m d (AtFetch (Responds r)))
      with (resume ep m d (AtFetch (Responds r)) ≫= alone (S (S n)) ep m d).
    cbn [resume].
    destruct (status_ok (status r)) eqn:Hok; cbn [negb].
    + rewrite (bind_ret _ _ _ (AtJson r)) by reflexivity.
      cbn [world events ret app].
      change (alone (S (S n)) ep m d (AtJson r))
        with (resume ep m d (AtJson r) ≫= alone (S n) ep m d).
      cbn [resume].
      destruct (json r) as [env|] eqn:Hjson.
      * assert (Ha : attempt (net w (clock w) (api_url ep) m) = inr env).
        { rewrite Hnet. unfold attempt. rewrite Hok, Hjson. reflexivity. }
        rewrite (apiCall_fuel_ret _ _ _ _ _ _ Ha).
        rewrite (bind_ret _ _ _ (Settled (Ret env))) by reflexivity.
        rewrite alone_settled. reflexivity.
      * apply failed_attempt_alone; [exact Hfuel| |intros; apply IH; auto].
        rewrite Hnet. unfold attempt. rewrite Hok, Hjson. reflexivity.
    + apply failed_attempt_alone;
        [exact Hfuel | | intros; apply IH; auto].
      rewrite Hnet. unfold attempt. rewrite Hok. reflexivity.
Qed.

(** A call that has the page to itself does what the gateway of the
    handler monad does. *)
Lemma alone_is_apiCall_fuel : forall fuel steps w,
  maxRetries config - retryCount (state w) <= fuel ->
  3 * S fuel <= steps ->
  (issue ep m d ≫= alone steps ep m d) w
  = settled (apiCall_fuel fuel ep m d w).
Proof.
  induction fuel as [|fuel IH]; intros steps w Hfuel Hsteps;
    (destruct steps as [|[|[|n]]]; [lia..|]);
    apply attempt_alone; try exact Hfuel.
  - intros k fuel' w' _ Hf. discriminate Hf.
  - intros k fuel' w' Hk Hf Hrc. injection Hf as <-.
    apply IH; [exact Hrc | lia].
Qed.

Lemma call_alone_is_apiCall w :
  call_alone ep m d w = settled (apiCall ep m d w).
Proof.
  unfold call_alone, apiCall. apply alone_is_apiCall_fuel; lia.
Qed.


Lemma caught_returns e w : exists at_, result (caught e w) = Ret at_.
Proof.
  unfold caught, mbind, M_bind, bind, gets. cbn [result world events].
  destruct (isOnline (state w) && (retryCount (state w) <? maxRetries config));
    cbn; eauto.
Qed.

Lemma resume_returns at_ w :
  exists at', result (resume ep m d at_ w) = Ret at'.
Proof.
  destruct at_ as [[|r]|r| |r]; cbn [resume].
  - apply caught_returns.
  - destruct (negb (status_ok (status r))); [apply caught_returns|].
    cbn. eauto.
  - destruct (json r); [cbn; eauto | apply caught_returns].
  - cbn. eauto.
  - cbn. eauto.
Qed.

(** The flight of one call, resumed [n] times, is that call running
    alone. *)
Lemma sole_flight n : forall at_ w evs,
  let o := alone n ep m d at_ w in
  turns (replicate n (Resume 0))
    {| shared := w; calls := [sole ep m d at_]; log := pair 0 <$> evs |}
  = {| shared := world o; calls := [sole ep m d (landing o)];
       log := pair 0 <$> (evs ++ events o) |}.
Proof.
  induction n as [|n IH]; intros at_ w evs o; subst o.
  - cbn. rewrite app_nil_r. reflexivity.
  - cbn [replicate turns turn lookup list_lookup calls shared log sole
         call_endpoint call_method call_data call_at].
    destruct (resume_returns at_ w) as [at' Hat].
    cbn [list_insert insert]. fold (sole ep m d (landing (resume ep m d at_ w))).
    rewrite <- fmap_app.
    unfold landing at 1. rewrite Hat.
    rewrite IH. cbn [alone].
    rewrite (bind_ret _ _ _ at' Hat). cbn [world events].
    rewrite <- app_assoc. unfold landing. cbn [result]. reflexivity.
Qed.

Lemma sole_flight_from_start n w :
  let o := (issue ep m d ≫= alone n ep m d) w in
  turns (Start ep m d :: replicate n (Resume 0)) (idle w)
  = {| shared := world o; calls := [sole ep m d (landing o)];
       log := pair 0 <$> events o |}.
Proof.
  intros o. subst o. rewrite issue_bind.
  set (at_ := AtFetch (net w (clock w) (api_url ep) m)).
  change (turns (Start ep m d :: replicate n (Resume 0)) (idle w))
    with (turns (replicate n (Resume 0))
            {| shared := ticked w; calls := [sole ep m d at_];
               log := pair 0 <$> [f] |}).
  rewrite sole_flight. reflexivity.
Qed.

(** A call that has the page to itself is the flight in which it is
    started and resumed until it settles, with no other turn. *)
Lemma call_alone_is_sole_flight w :
  let o := call_alone ep m d w in
  turns (Start ep m d :: replicate (3 * S (maxRetries config)) (Resume 0))
    (idle w)
  = {| shared := world o; calls := [sole ep m d (landing o)];
       log := pair 0 <$> events o |}.
Proof. exact (sole_flight_from_start (3 * S (maxRetries config)) w). Qed.


(** X1. A call that has the page to itself costs at most four requests,
    all of them the same, and at most six seconds of waiting, whatever
    the network and the state it starts in; and it settles. *)
Theorem isolated_call_bounded w :
  let o := call_alone ep m d w in
  (exists r, result o = Ret (Settled r) /\ r <> Stuck) /\
  1 <= fetches (events o) <= 4 /\
  (0 <= total_delay (events o) <= 6000)%Z /\
  Forall (fun e => e = f \/ exists ms, e = EvDelay ms) (events o).
Proof.
  intros o. subst o. rewrite call_alone_is_apiCall.
  cbn [settled events result].
  split; [|apply apiCall_bounded].
  exists (result (apiCall ep m d w)). split; [reflexivity|].
  apply apiCall_returns.
Qed.

End Isolated.



End AppProps.

(** * Properties of the service worker *)

Module SWProps.
Import SW.

(** ** Lists *)

Lemma filter_ext_in {A} (P Q : A -> Prop)
    `{!forall x, Decision (P x)} `{!forall x, Decision (Q x)} (l : list A) :
  (forall x, x ∈ l -> (P x <-> Q x)) -> filter P l = filter Q l.
Proof.
  induction l as [|x l IH]; intros Hext; [reflexivity|].
  rewrite !filter_cons, IH.
  - destruct (decide (P x)) as [HP|HP], (decide (Q x)) as [HQ|HQ];
      try reflexivity; exfalso;
      [apply HQ | apply HP]; apply (Hext x); auto; apply list_elem_of_here.
  - intros y Hy. apply Hext. apply list_elem_of_further, Hy.
Qed.

Lemma filter_all {A} (P : A -> Prop) `{!forall x, Decision (P x)}
    (l : list A) :
  (forall x, x ∈ l -> P x) -> filter P l = l.
Proof.
  induction l as [|x l IH]; intros Hall; [reflexivity|].
  rewrite filter_cons_True by (apply Hall, list_elem_of_here).
  f_equal. apply IH. intros y Hy. apply Hall, list_elem_of_further, Hy.
Qed.

Lemma find_filter {A} (p : A -> bool) (Q : A -> Prop)
    `{!forall x, Decision (Q x)} (l : list A) :
  (forall x, p x = true -> Q x) -> find p (filter Q l) = find p l.
Proof.
  intros Himp. induction l as [|x l IH]; [reflexivity|].
  rewrite filter_cons. destruct (decide (Q x)) as [HQ|HQ]; cbn [find].
  - rewrite IH. reflexivity.
  - destruct (p x) eqn:Hp; [destruct HQ; auto | exact IH].
Qed.

(** ** Activation *)

Lemma caches_delete_all names : forall s,
  foldl (fun acc cacheName => caches_delete cacheName acc) s names
  = filter (fun e => e.1 ∉ names) s.
Proof.
  induction names as [|n names IH]; intros s; cbn [foldl].
  - symmetry. apply filter_all. intros x _. apply not_elem_of_nil.
  - rewrite IH. unfold caches_delete. rewrite list_filter_filter.
    apply list_filter_iff. intros x. rewrite not_elem_of_cons. tauto.
Qed.

(** Activation keeps exactly the caches that bear a current tag. *)
Lemma activate_filter s : activate s = filter (fun e => current e.1) s.
Proof.
  unfold activate. rewrite caches_delete_all.
  apply filter_ext_in. intros [name c] Hin. cbn [fst]. unfold current.
  rewrite list_elem_of_filter. split.
  - intros H.
    destruct (decide (name = CACHE_NAME)) as [|H1]; [tauto|].
    destruct (decide (name = RUNTIME_CACHE)) as [|H2]; [tauto|].
    destruct H. split; [tauto|].
    unfold caches_keys. apply list_elem_of_fmap. exists (name, c). auto.
  - tauto.
Qed.

Lemma cache_named_activate name s :
  current name -> cache_named name (activate s) = cache_named name s.
Proof.
  intros H. unfold cache_named. rewrite activate_filter. f_equal.
  apply find_filter. intros [n c] Hn. cbn [fst] in *.
  apply bool_decide_eq_true in Hn. subst n. exact H.
Qed.

(** C9.  Activation deletes every cache whose name is neither of the two
    current tags: such a name is absent from the enumeration afterwards,
    every name that remains is a current tag, and the two current caches
    are kept with their contents. *)
Theorem activate_deletes_old_caches (s : CacheStorage) :
  (forall name,
     name ∈ caches_keys s -> name <> CACHE_NAME -> name <> RUNTIME_CACHE ->
     name ∉ caches_keys (activate s)) /\
  (forall name,
     name ∈ caches_keys (activate s) ->
     name = CACHE_NAME \/ name = RUNTIME_CACHE) /\
  cache_named CACHE_NAME (activate s) = cache_named CACHE_NAME s /\
  cache_named RUNTIME_CACHE (activate s) = cache_named RUNTIME_CACHE s.
Proof.
  assert (Hkeys : forall name,
            name ∈ caches_keys (activate s) -> current name).
  { intros name Hin. unfold caches_keys in Hin.
    apply list_elem_of_fmap in Hin as [[n c] [-> Hin]].
    rewrite activate_filter in Hin.
    apply list_elem_of_filter in Hin as [Hcur _]. exact Hcur. }
  repeat split.
  - intros name _ H1 H2 Hin. destruct (Hkeys name Hin); contradiction.
  - exact Hkeys.
  - apply cache_named_activate. left. reflexivity.
  - apply cache_named_activate. right. reflexivity.
Qed.

Lemma activate_deletes_old_caches_witness :
  "spot-carwash-v0" ∉
    caches_keys (activate [("spot-carwash-v0", []); (CACHE_NAME, [])]).
Proof.
  destruct (activate_deletes_old_caches
              [("spot-carwash-v0", []); (CACHE_NAME, [])]) as [H _].
  apply H.
  - apply list_elem_of_here.
  - discriminate.
  - discriminate.
Defined.

(** ** Looking caches up by name *)

Lemma find_snoc {A} (p : A -> bool) (l : list A) (x : A) :
  find p (l ++ [x])
  = match find p l with
    | Some y => Some y
    | None => if p x then Some x else None
    end.
Proof.
  induction l as [|y l IH]; cbn [app find]; [reflexivity|].
  destruct (p y); [reflexivity | exact IH].
Qed.

Lemma cache_named_caches_open_ne name name' s :
  name <> name' ->
  cache_named name (caches_open name' s) = cache_named name s.
Proof.
  intros Hne. unfold caches_open.
  destruct (cache_named name' s); [reflexivity|].
  unfold cache_named. rewrite find_snoc. cbn [fst].
  rewrite (bool_decide_eq_false_2 (name' = name)) by congruence.
  destruct (find _ s); reflexivity.
Qed.

Lemma cache_named_caches_open name s :
  exists c, cache_named name (caches_open name s) = Some c.
Proof.
  unfold caches_open.
  destruct (cache_named name s) as [c|] eqn:Hc; [eauto|].
  exists []. unfold cache_named in *. rewrite find_snoc. cbn [fst].
  rewrite bool_decide_eq_true_2 by reflexivity.
  destruct (find _ s); [discriminate | reflexivity].
Qed.

Lemma cache_named_set_ne name name' c s :
  name <> name' ->
  cache_named name (set_cache_named name' c s) = cache_named name s.
Proof.
  intros Hne. unfold cache_named, set_cache_named. f_equal.
  induction s as [|[n c0] s IH]; [reflexivity|].
  cbn [fmap list_fmap find fst].
  destruct (bool_decide (n = name')) eqn:Hn; cbn [fst].
  - apply bool_decide_eq_true in Hn. subst n.
    rewrite !(bool_decide_eq_false_2 (name' = name)) by congruence.
    exact IH.
  - destruct (bool_decide (n = name)); [reflexivity | exact IH].
Qed.

Lemma cache_named_set name c c0 s :
  cache_named name s = Some c0 ->
  cache_named name (set_cache_named name c s) = Some c.
Proof.
  unfold cache_named, set_cache_named.
  induction s as [|[n c1] s IH]; [discriminate|].
  cbn [fmap list_fmap find fst].
  destruct (bool_decide (n = name)) eqn:Hn; cbn [fst].
  - rewrite bool_decide_eq_true_2 by reflexivity. reflexivity.
  - rewrite Hn. exact IH.
Qed.

Lemma cache_named_open_and_put_ne name name' request response s :
  name <> name' ->
  cache_named name (open_and_put name' request response s)
  = cache_named name s.
Proof.
  intros Hne. unfold open_and_put.
  destruct (cache_named name' (caches_open name' s)) as [c|];
    [destruct (cache_put c request response)|];
    rewrite ?cache_named_set_ne by exact Hne;
    apply cache_named_caches_open_ne, Hne.
Qed.

(** A request that has just been put is found again. *)
Lemma cache_match_put c request response c' :
  cache_put c request response = Some c' ->
  cache_match c' request = Some response.
Proof.
  unfold cache_put. intros Hput.
  destruct (bool_decide (method request = GET)) eqn:Hm; [|discriminate].
  destruct (negb _); [|discriminate]. injection Hput as <-.
  unfold cache_match. rewrite find_snoc.
  assert (Hnone : find (fun e => request_matches request e.1)
                    (filter (fun e => request_matches request e.1 = false) c)
                  = None).
  { destruct (find _ _) as [e|] eqn:Hfind; [|reflexivity].
    apply find_some in Hfind as [Hin He].
    apply list_elem_of_In, list_elem_of_filter in Hin as [Hno _].
    congruence. }
  rewrite Hnone. cbn [fst]. unfold request_matches. rewrite Hm.
  rewrite bool_decide_eq_true_2 by reflexivity. reflexivity.
Qed.

Lemma open_and_put_stored name request response s :
  method request = GET -> status response <> 206 ->
  exists c,
    cache_named name (open_and_put name request response s) = Some c /\
    cache_match c request = Some response.
Proof.
  intros Hm Hstatus. unfold open_and_put.
  destruct (cache_named_caches_open name s) as [c Hc]. rewrite Hc.
  destruct (cache_put c request response) as [c'|] eqn:Hput.
  - exists c'. split.
    + apply (cache_named_set _ _ c), Hc.
    + apply (cache_match_put _ _ _ _ Hput).
  - unfold cache_put in Hput.
    rewrite bool_decide_eq_true_2 in Hput by exact Hm.
    apply Nat.eqb_neq in Hstatus. rewrite Hstatus in Hput. discriminate.
Qed.

(** ** Only GET requests are stored *)

Lemma get_only_cache_put c request response c' :
  cache_put c request response = Some c' ->
  get_only_cache c -> get_only_cache c'.
Proof.
  unfold cache_put, get_only_cache. intros Hput Hc.
  destruct (bool_decide (method request = GET)) eqn:Hm; [|discriminate].
  destruct (negb _); [|discriminate]. injection Hput as <-.
  apply bool_decide_eq_true in Hm.
  apply Forall_app. split.
  - apply Forall_forall. intros e He.
    apply list_elem_of_filter in He as [_ He].
    revert e He. apply Forall_forall. exact Hc.
  - apply Forall_singleton. exact Hm.
Qed.

Lemma get_only_cache_named name s c :
  get_only s -> cache_named name s = Some c -> get_only_cache c.
Proof.
  unfold get_only, cache_named. intros Hs Hc.
  destruct (find _ s) as [[n c0]|] eqn:Hfind; [|discriminate].
  injection Hc as <-. apply find_some in Hfind as [Hin _].
  apply list_elem_of_In in Hin.
  rewrite Forall_forall in Hs. exact (Hs (n, c0) Hin).
Qed.

Lemma get_only_caches_open name s : get_only s -> get_only (caches_open name s).
Proof.
  unfold caches_open, get_only. intros Hs.
  destruct (cache_named name s); [exact Hs|].
  apply Forall_app. split; [exact Hs|].
  apply Forall_singleton. apply Forall_nil_2.
Qed.

Lemma get_only_set_cache_named name c s :
  get_only_cache c -> get_only s -> get_only (set_cache_named name c s).
Proof.
  unfold set_cache_named, get_only. intros Hc Hs.
  apply Forall_fmap. eapply Forall_impl; [exact Hs|].
  intros [n c0] H0. cbn [compose fst snd] in *.
  destruct (bool_decide (n = name)); assumption.
Qed.

Lemma get_only_filter (P : string * Cache -> Prop)
    `{!forall e, Decision (P e)} s :
  get_only s -> get_only (filter P s).
Proof.
  unfold get_only. intros Hs. apply Forall_forall. intros e He.
  apply list_elem_of_filter in He as [_ He].
  revert e He. apply Forall_forall. exact Hs.
Qed.

Lemma get_only_open_and_put name request response s :
  get_only s -> get_only (open_and_put name request response s).
Proof.
  intros Hs. unfold open_and_put.
  pose proof (get_only_caches_open name s Hs) as Hopen.
  destruct (cache_named name (caches_open name s)) as [c|] eqn:Hc;
    [|exact Hopen].
  destruct (cache_put c request response) as [c'|] eqn:Hput; [|exact Hopen].
  apply get_only_set_cache_named; [|exact Hopen].
  apply (get_only_cache_put _ _ _ _ Hput).
  apply (get_only_cache_named _ _ _ Hopen Hc).
Qed.

Lemma get_only_put_all entries : forall c c',
  put_all entries c = Some c' -> get_only_cache c -> get_only_cache c'.
Proof.
  induction entries as [|[request response] entries IH]; intros c c' Hput Hc.
  - injection Hput as <-. exact Hc.
  - cbn [put_all] in Hput.
    destruct (cache_put c request response) as [c1|] eqn:H1; [|discriminate].
    cbn in Hput. apply (IH c1 c' Hput).
    apply (get_only_cache_put _ _ _ _ H1 Hc).
Qed.

Section Invariant.

Variable location_origin : string.

Lemma get_only_install net s :
  get_only s -> get_only (installed_caches (install location_origin net s)).
Proof.
  intros Hs. unfold install.
  pose proof (get_only_caches_open CACHE_NAME s Hs) as Hopen.
  destruct (cache_named CACHE_NAME (caches_open CACHE_NAME s)) as [c|] eqn:Hc;
    [|exact Hopen].
  destruct (addAll _ _ c) as [c'|] eqn:Hadd; [|exact Hopen].
  cbn [installed_caches]. apply get_only_set_cache_named; [|exact Hopen].
  unfold addAll in Hadd.
  destruct (fetch_all _ _) as [entries|]; [|discriminate].
  apply (get_only_put_all _ _ _ Hadd).
  apply (get_only_cache_named _ _ _ Hopen Hc).
Qed.

Lemma get_only_activate s : get_only s -> get_only (activate s).
Proof. rewrite activate_filter. apply get_only_filter. Qed.

Lemma get_only_fetchAndCache request response s :
  get_only s -> get_only (fetchAndCache request response s).
Proof.
  intros Hs. unfold fetchAndCache.
  destruct (_ || _); [exact Hs|]. apply get_only_open_and_put, Hs.
Qed.

Lemma get_only_on_fetch request network s :
  get_only s ->
  get_only (fetched_caches (on_fetch location_origin request network s)).
Proof.
  intros Hs. unfold on_fetch.
  destruct (bool_decide _); [exact Hs|].
  destruct (startsWith _ _).
  - destruct network as [response|]; cbn [fetched_caches]; [|exact Hs].
    destruct (ok response); [apply get_only_open_and_put, Hs | exact Hs].
  - destruct (caches_match s request);
      destruct network as [response|]; cbn [fetched_caches];
      auto using get_only_fetchAndCache.
Qed.

Lemma get_only_reachable s : reachable location_origin s -> get_only s.
Proof.
  induction 1 as [|ev s _ IH]; [apply Forall_nil_2|].
  destruct ev as [net| |request network]; cbn [handle].
  - apply get_only_install, IH.
  - apply get_only_activate, IH.
  - apply get_only_on_fetch, IH.
Qed.

(** C6.  In every cache storage that the worker can produce, every key of
    every cache is a GET request: no POST, PUT or DELETE request is ever
    stored, by the API branch or otherwise. *)
Theorem only_get_requests_cached s :
  reachable location_origin s ->
  forall name c request response,
    (name, c) ∈ s -> (request, response) ∈ c -> method request = GET.
Proof.
  intros Hreach name c request response Hs Hc.
  pose proof (get_only_reachable s Hreach) as Hget.
  unfold get_only in Hget. rewrite Forall_forall in Hget.
  specialize (Hget _ Hs). cbn [snd] in Hget.
  unfold get_only_cache in Hget. rewrite Forall_forall in Hget.
  exact (Hget _ Hc).
Qed.

(** The worker itself hands every [ok] API response to [cache.put],
    whatever the method; it is [put] that refuses a request that is not a
    GET, and then only the runtime cache has been created. *)
Lemma api_response_not_stored_unless_get request response s :
  origin (url request) = location_origin ->
  startsWith (pathname (url request)) "/api/" = true ->
  ok response = true ->
  method request <> GET ->
  fetched_caches (on_fetch location_origin request (Some response) s)
  = caches_open RUNTIME_CACHE s.
Proof.
  intros Ho Hapi Hok Hm. unfold on_fetch.
  rewrite bool_decide_eq_false_2 by (intros H; apply H, Ho).
  rewrite Hapi, Hok. cbn [fetched_caches]. unfold open_and_put.
  destruct (cache_named _ _) as [c|]; [|reflexivity].
  unfold cache_put. rewrite bool_decide_eq_false_2 by exact Hm. reflexivity.
Qed.

(** ** Where the fetch handler stores *)

Lemma static_cache_fetchAndCache request response s :
  cache_named CACHE_NAME (fetchAndCache request response s)
  = cache_named CACHE_NAME s.
Proof.
  unfold fetchAndCache. destruct (_ || _); [reflexivity|].
  apply cache_named_open_and_put_ne. discriminate.
Qed.

Lemma static_cache_on_fetch request network s :
  cache_named CACHE_NAME
    (fetched_caches (on_fetch location_origin request network s))
  = cache_named CACHE_NAME s.
Proof.
  unfold on_fetch.
  destruct (bool_decide _); [reflexivity|].
  destruct (startsWith _ _).
  - destruct network as [response|]; cbn [fetched_caches]; [|reflexivity].
    destruct (ok response); [|reflexivity].
    apply cache_named_open_and_put_ne. discriminate.
  - destruct (caches_match s request);
      destruct network as [response|]; cbn [fetched_caches];
      auto using static_cache_fetchAndCache.
Qed.

(** C10.  No event other than an installation changes the static cache;
    and a same-origin GET request outside [/api/] that the network answers
    with a 200 response that is not of type error is, after the fetch
    event, stored in the runtime cache with that response. *)
Theorem lazily_cached_in_runtime (s : CacheStorage) :
  (forall ev,
     (forall net, ev <> Install net) ->
     cache_named CACHE_NAME (handle location_origin ev s)
     = cache_named CACHE_NAME s) /\
  (forall request response,
     origin (url request) = location_origin ->
     startsWith (pathname (url request)) "/api/" = false ->
     method request = GET ->
     status response = 200 ->
     type response <> error ->
     exists c,
       cache_named RUNTIME_CACHE
         (handle location_origin (Fetch request (Some response)) s) = Some c /\
       cache_match c request = Some response).
Proof.
  split.
  - intros [net| |request network] Hev; cbn [handle].
    + destruct (Hev net). reflexivity.
    + apply cache_named_activate. left. reflexivity.
    + apply static_cache_on_fetch.
  - intros request response Ho Hapi Hm Hstatus Htype. cbn [handle].
    assert (Hstore : fetched_caches
                       (on_fetch location_origin request (Some response) s)
                     = open_and_put RUNTIME_CACHE request response s).
    { unfold on_fetch.
      rewrite bool_decide_eq_false_2 by (intros H; apply H, Ho).
      rewrite Hapi. unfold fetchAndCache.
      rewrite Hstatus, (bool_decide_eq_false_2 _ Htype).
      destruct (caches_match s request); reflexivity. }
    rewrite Hstore. apply open_and_put_stored; [exact Hm|].
    rewrite Hstatus. discriminate.
Qed.

End Invariant.

Lemma only_get_requests_cached_witness :
  method (api_request GET "/api/dashboard-stats") = GET.
Proof.
  apply (only_get_requests_cached sample_origin
           (handle sample_origin
              (Fetch (api_request GET "/api/dashboard-stats")
                 (Some (sample_response "stats")))
              installed_storage))
    with (name := RUNTIME_CACHE)
         (c := [(api_request GET "/api/dashboard-stats",
                 sample_response "stats")])
         (response := sample_response "stats").
  - apply reachable_step. unfold installed_storage.
    apply (reachable_step sample_origin Activate).
    apply (reachable_step sample_origin (Install echo_network)).
    apply reachable_init.
  - vm_compute. apply list_elem_of_further, list_elem_of_here.
  - apply list_elem_of_here.
Defined.

Lemma lazily_cached_in_runtime_witness :
  cache_named CACHE_NAME
    (handle sample_origin
       (Fetch (navigation "/customers") (Some (sample_response "customers")))
       installed_storage)
  = cache_named CACHE_NAME installed_storage /\
  exists c,
    cache_named RUNTIME_CACHE
      (handle sample_origin
         (Fetch (navigation "/customers")
            (Some (sample_response "customers")))
         installed_storage) = Some c /\
    cache_match c (navigation "/customers")
    = Some (sample_response "customers").
Proof.
  destruct (lazily_cached_in_runtime sample_origin installed_storage)
    as [Hstatic Hruntime].
  split.
  - apply Hstatic. discriminate.
  - apply Hruntime.
    + reflexivity.
    + reflexivity.
    + reflexivity.
    + reflexivity.
    + discriminate.
Defined.

(** ** The offline fallback *)

Lemma fetch_all_keys net requests : forall entries,
  fetch_all net requests = Some entries -> entries.*1 = requests.
Proof.
  induction requests as [|request requests IH]; intros entries H.
  - injection H as <-. reflexivity.
  - cbn [fetch_all] in H.
    destruct (net request) as [response|]; [|discriminate].
    destruct (ok response); [|discriminate].
    destruct (fetch_all net requests) as [rest|]; [|discriminate].
    injection H as <-. cbn. f_equal. apply IH. reflexivity.
Qed.

Lemma put_all_keys entries : forall c c' e,
  put_all entries c = Some c' -> e ∈ c' -> e ∈ c \/ e ∈ entries.
Proof.
  induction entries as [|[request response] entries IH]; intros c c' e Hput He.
  - injection Hput as <-. auto.
  - cbn [put_all] in Hput.
    destruct (cache_put c request response) as [c1|] eqn:H1; [|discriminate].
    cbn in Hput. destruct (IH _ _ _ Hput He) as [Hc1|Hrest].
    + unfold cache_put in H1. destruct (_ && _); [|discriminate].
      injection H1 as <-. apply elem_of_app in Hc1 as [Hc|Hnew].
      * apply list_elem_of_filter in Hc as [_ Hc]. auto.
      * apply list_elem_of_singleton in Hnew as ->. right. apply list_elem_of_here.
    + right. apply list_elem_of_further, Hrest.
Qed.

Lemma cache_match_none c query :
  (forall e, e ∈ c -> url e.1 <> url query) -> cache_match c query = None.
Proof.
  intros H. unfold cache_match.
  destruct (find _ c) as [e|] eqn:Hfind; [|reflexivity].
  apply find_some in Hfind as [Hin He].
  apply list_elem_of_In, H in Hin.
  unfold request_matches in He. apply andb_true_iff in He as [_ He].
  apply bool_decide_eq_true in He. contradiction.
Qed.

(** Whatever the network does during the installation on a fresh origin,
    the storage after installation and activation holds no fallback
    document. *)
Lemma offline_fallback_not_installed location_origin net :
  caches_match
    (activate (installed_caches (install location_origin net [])))
    (new_Request location_origin "/offline.html") = None.
Proof.
  unfold install.
  cbn [caches_open cache_named find fmap option_fmap option_map app fst snd].
  rewrite bool_decide_eq_true_2 by reflexivity.
  cbn [fmap option_fmap option_map snd].
  destruct (addAll _ _ []) as [c'|] eqn:Hadd; cbn [installed_caches];
    [|reflexivity].
  assert (Hkeep : activate (set_cache_named CACHE_NAME c' [(CACHE_NAME, [])])
                  = [(CACHE_NAME, c')]).
  { rewrite activate_filter. reflexivity. }
  rewrite Hkeep. cbn [caches_match].
  rewrite cache_match_none; [reflexivity|].
  intros e He. unfold addAll in Hadd.
  destruct (fetch_all _ _) as [entries|] eqn:Hfetch; [|discriminate].
  cbn in Hadd.
  destruct (put_all_keys _ _ _ e Hadd He) as [Hnil|Hin].
  - apply elem_of_nil in Hnil. contradiction.
  - apply fetch_all_keys in Hfetch.
    assert (Hkey : e.1 ∈ new_Request location_origin <$> STATIC_ASSETS).
    { rewrite <- Hfetch. apply list_elem_of_fmap. eauto. }
    apply list_elem_of_fmap in Hkey as [path [-> Hpath]].
    unfold STATIC_ASSETS in Hpath. cbn [new_Request url].
    repeat (apply elem_of_cons in Hpath as [->|Hpath]; [discriminate|]).
    apply elem_of_nil in Hpath. contradiction.
Qed.

(** So, after any installation on a fresh origin, a navigation that is
    not cached gets no response when the network is down. *)
Lemma offline_fallback_unavailable location_origin net request :
  let s := activate (installed_caches (install location_origin net [])) in
  origin (url request) = location_origin ->
  startsWith (pathname (url request)) "/api/" = false ->
  destination request = "document" ->
  caches_match s request = None ->
  handled (on_fetch location_origin request None s) = RespondWith None.
Proof.
  intros s Ho Hapi Hdest Hmiss. unfold on_fetch.
  rewrite bool_decide_eq_false_2 by (intros H; apply H, Ho).
  rewrite Hapi, Hmiss. cbn [handled].
  rewrite bool_decide_eq_true_2 by exact Hdest.
  subst s. rewrite offline_fallback_not_installed. reflexivity.
Qed.

(** C8: the code does not do what the claim says.  After a successful
    installation and the activation, a navigation to a page that is not
    cached, with the network down, is answered with [undefined]:
    [/offline.html] is not among the precached assets, so the lookup of
    the fallback finds nothing. *)
Theorem offline_fallback_missing :
  caches_match installed_storage (navigation "/customers") = None /\
  caches_match installed_storage (new_Request sample_origin "/offline.html")
  = None /\
  handled (on_fetch sample_origin (navigation "/customers") None
             installed_storage)
  = RespondWith None.
Proof. repeat split. Qed.

(** The fallback is served once some cache holds [/offline.html]. *)
Lemma offline_fallback_when_cached location_origin request fallback s :
  origin (url request) = location_origin ->
  startsWith (pathname (url request)) "/api/" = false ->
  destination request = "document" ->
  caches_match s request = None ->
  caches_match s (new_Request location_origin "/offline.html")
  = Some fallback ->
  handled (on_fetch location_origin request None s)
  = RespondWith (Some fallback).
Proof.
  intros Ho Hapi Hdest Hmiss Hfallback. unfold on_fetch.
  rewrite bool_decide_eq_false_2 by (intros H; apply H, Ho).
  rewrite Hapi, Hmiss. cbn [handled].
  rewrite bool_decide_eq_true_2 by exact Hdest.
  rewrite Hfallback. reflexivity.
Qed.


(** ** Installation *)

Lemma fetch_all_none net requests request :
  request ∈ requests ->
  (net request = None \/
   exists response, net request = Some response /\ ok response = false) ->
  fetch_all net requests = None.
Proof.
  intros Hin Hbad. induction requests as [|r requests IH].
  - apply elem_of_nil in Hin. contradiction.
  - cbn [fetch_all]. apply elem_of_cons in Hin as [<-|Hin].
    + destruct Hbad as [->|(response & -> & ->)]; reflexivity.
    + destruct (net r) as [response|]; [|reflexivity].
      destruct (ok response); [|reflexivity].
      rewrite (IH Hin). reflexivity.
Qed.

Lemma fetch_all_some net requests :
  (forall request, request ∈ requests ->
     exists response, net request = Some response /\ ok response = true) ->
  exists entries,
    fetch_all net requests = Some entries /\
    entries.*1 = requests /\
    forall request response,
      (request, response) ∈ entries -> net request = Some response.
Proof.
  induction requests as [|r requests IH]; intros Hall.
  - exists []. repeat split. intros ? ? H. apply elem_of_nil in H. contradiction.
  - destruct (Hall r) as (response & Hr & Hok); [apply list_elem_of_here|].
    destruct IH as (entries & Hfetch & Hkeys & Hnet).
    { intros request Hin. apply Hall, list_elem_of_further, Hin. }
    exists ((r, response) :: entries). cbn [fetch_all].
    rewrite Hr, Hok, Hfetch. cbn. rewrite Hkeys. repeat split.
    intros request response' Hin. apply elem_of_cons in Hin as [Heq|Hin].
    + injection Heq as -> ->. exact Hr.
    + apply Hnet, Hin.
Qed.

Lemma cache_match_put_other c request response c' query :
  cache_put c request response = Some c' ->
  url request <> url query ->
  cache_match c' query = cache_match c query.
Proof.
  unfold cache_put. intros Hput Hne.
  destruct (_ && _); [|discriminate]. injection Hput as <-.
  unfold cache_match. f_equal. rewrite find_snoc. cbn [fst].
  assert (Hfind : find (fun e => request_matches query e.1)
                    (filter (fun e => request_matches request e.1 = false) c)
                  = find (fun e => request_matches query e.1) c).
  { induction c as [|e c IH]; [reflexivity|].
    rewrite filter_cons. cbn [find].
    destruct (decide (request_matches request e.1 = false)) as [Hno|Hyes];
      cbn [find].
    - rewrite IH. reflexivity.
    - destruct (request_matches query e.1) eqn:Hq; [|exact IH].
      exfalso. apply Hne.
      apply not_false_is_true in Hyes.
      unfold request_matches in Hyes, Hq.
      apply andb_true_iff in Hyes as [_ H1]. apply andb_true_iff in Hq as [_ H2].
      apply bool_decide_eq_true in H1, H2. congruence. }
  rewrite Hfind. destruct (find _ c); [reflexivity|].
  unfold request_matches.
  rewrite (bool_decide_eq_false_2 (url request = url query)) by exact Hne.
  rewrite andb_false_r. reflexivity.
Qed.

Lemma put_all_stores entries : forall c,
  Forall (fun e => method e.1 = GET /\ status e.2 <> 206) entries ->
  NoDup ((fun e => url e.1) <$> entries) ->
  exists c',
    put_all entries c = Some c' /\
    forall request response,
      (request, response) ∈ entries ->
      cache_match c' request = Some response.
Proof.
  induction entries as [|[r resp] entries IH]; intros c Hok Hnd.
  - exists c. split; [reflexivity|].
    intros ? ? H. apply elem_of_nil in H. contradiction.
  - apply Forall_cons in Hok as [[Hm Hs] Hok].
    rewrite fmap_cons in Hnd. apply NoDup_cons in Hnd as [Hfresh Hnd].
    cbn [fst snd] in *.
    assert (Hput : exists c1, cache_put c r resp = Some c1).
    { unfold cache_put. rewrite bool_decide_eq_true_2 by exact Hm.
      apply Nat.eqb_neq in Hs. rewrite Hs. eauto. }
    destruct Hput as [c1 Hput].
    destruct (IH c1 Hok Hnd) as (c' & Hall & Hmatch).
    exists c'. cbn [put_all]. rewrite Hput. cbn. split; [exact Hall|].
    intros request response Hin. apply elem_of_cons in Hin as [Heq|Hin].
    + injection Heq as -> ->.
      assert (Hkeep : forall es c2 c3,
                put_all es c2 = Some c3 ->
                url r ∉ (fun e => url e.1) <$> es ->
                cache_match c3 r = cache_match c2 r).
      { clear. induction es as [|[r' resp'] es IHes]; intros c2 c3 Hp Hnot.
        - injection Hp as <-. reflexivity.
        - cbn [put_all] in Hp.
          destruct (cache_put c2 r' resp') as [c4|] eqn:H4; [|discriminate].
          cbn in Hp. rewrite fmap_cons in Hnot.
          apply not_elem_of_cons in Hnot as [Hne Hnot]. cbn [fst] in Hne.
          rewrite (IHes _ _ Hp Hnot).
          apply (cache_match_put_other _ _ _ _ _ H4). congruence. }
      rewrite (Hkeep _ _ _ Hall Hfresh).
      apply (cache_match_put _ _ _ _ Hput).
    + apply Hmatch, Hin.
Qed.

Lemma static_assets_distinct location_origin :
  NoDup ((fun r => url r) <$> (new_Request location_origin <$> STATIC_ASSETS)).
Proof.
  unfold STATIC_ASSETS. cbn [fmap list_fmap new_Request url].
  repeat (apply NoDup_cons; split;
          [intros H;
           repeat (apply elem_of_cons in H as [H|H]; [discriminate H|]);
           apply elem_of_nil in H; exact H|]).
  apply NoDup_nil_2.
Qed.

Section Install.

Variable location_origin : string.

(** X14.  When every precached asset is answered with an [ok] response
    that is not partial, the installation asks to skip waiting and the
    static cache answers each asset with the response it was fetched
    with. *)
Theorem install_precaches net s :
  (forall path, path ∈ STATIC_ASSETS ->
     exists response,
       net (new_Request location_origin path) = Some response /\
       ok response = true /\ status response <> 206) ->
  let i := install location_origin net s in
  skipWaiting i = true /\
  exists c,
    cache_named CACHE_NAME (installed_caches i) = Some c /\
    forall path, path ∈ STATIC_ASSETS ->
      cache_match c (new_Request location_origin path)
      = net (new_Request location_origin path).
Proof.
  intros Hnet i. subst i. unfold install.
  destruct (cache_named_caches_open CACHE_NAME s) as [c0 Hc0]. rewrite Hc0.
  destruct (fetch_all_some net (new_Request location_origin <$> STATIC_ASSETS))
    as (entries & Hfetch & Hkeys & Hresp).
  { intros request Hin. apply list_elem_of_fmap in Hin as [path [-> Hpath]].
    destruct (Hnet path Hpath) as (response & Hr & Hok & _). eauto. }
  destruct (put_all_stores entries c0) as (c' & Hput & Hmatch).
  { apply Forall_forall. intros [request response] Hin. cbn [fst snd].
    assert (Hreq : request ∈ new_Request location_origin <$> STATIC_ASSETS).
    { rewrite <- Hkeys. apply list_elem_of_fmap. exists (request, response).
      auto. }
    apply list_elem_of_fmap in Hreq as [path [-> Hpath]].
    split; [reflexivity|].
    destruct (Hnet path Hpath) as (response' & Hr & _ & Hs).
    rewrite (Hresp _ _ Hin) in Hr. injection Hr as ->. exact Hs. }
  { change ((fun e : Request * Response => url e.1) <$> entries)
      with ((url ∘ fst) <$> entries).
    rewrite list_fmap_compose, Hkeys. apply static_assets_distinct. }
  unfold addAll. rewrite Hfetch. cbn. rewrite Hput.
  cbn [skipWaiting installed_caches]. split; [reflexivity|].
  exists c'. split; [apply (cache_named_set _ _ c0), Hc0|].
  intros path Hpath.
  destruct (Hnet path Hpath) as (response & Hr & _). rewrite Hr.
  apply Hmatch.
  assert (Hreq : new_Request location_origin path ∈ entries.*1).
  { rewrite Hkeys. apply list_elem_of_fmap. eauto. }
  apply list_elem_of_fmap in Hreq as [[request response'] [Heq Hin]].
  cbn [fst] in Heq. subst request.
  rewrite (Hresp _ _ Hin) in Hr. injection Hr as ->. exact Hin.
Qed.

(** X15.  When the fetch of one precached asset fails, or is answered
    with a status outside 200-299, the installation stores nothing: the
    storage is as before, with the static cache created if it was
    missing, and the worker does not ask to skip waiting. *)
Theorem install_all_or_nothing net s path :
  path ∈ STATIC_ASSETS ->
  (net (new_Request location_origin path) = None \/
   exists response,
     net (new_Request location_origin path) = Some response /\
     ok response = false) ->
  install location_origin net s
  = {| installed_caches := caches_open CACHE_NAME s; skipWaiting := false |}.
Proof.
  intros Hpath Hbad. unfold install.
  destruct (cache_named _ (caches_open _ s)); [|reflexivity].
  unfold addAll.
  rewrite (fetch_all_none net _ (new_Request location_origin path)); auto.
  apply list_elem_of_fmap. eauto.
Qed.

End Install.

(** ** Answering from the caches *)

Lemma cache_named_elem name s c :
  cache_named name s = Some c -> (name, c) ∈ s.
Proof.
  unfold cache_named. intros H.
  destruct (find _ s) as [[n c0]|] eqn:Hfind; [|discriminate].
  injection H as <-. apply find_some in Hfind as [Hin Hn].
  cbn [fst] in Hn. apply bool_decide_eq_true in Hn. subst n.
  apply list_elem_of_In, Hin.
Qed.

Lemma caches_open_elem name s e :
  e ∈ caches_open name s -> e ∈ s \/ e = (name, []).
Proof.
  unfold caches_open. destruct (cache_named name s); [auto|].
  intros H. apply elem_of_app in H as [H|H]; [auto|].
  apply list_elem_of_singleton in H. auto.
Qed.

Lemma caches_match_set name c' query response : forall s,
  (forall n c, (n, c) ∈ s -> n <> name -> cache_match c query = None) ->
  (exists c0, (name, c0) ∈ s) ->
  cache_match c' query = Some response ->
  caches_match (set_cache_named name c' s) query = Some response.
Proof.
  induction s as [|[n c] s IH]; intros Hother [c0 Hin] Hmatch.
  - apply elem_of_nil in Hin. contradiction.
  - unfold set_cache_named. cbn [fmap list_fmap fst].
    fold (set_cache_named name c' s).
    destruct (bool_decide (n = name)) eqn:Hn; cbn [caches_match].
    + rewrite Hmatch. reflexivity.
    + apply bool_decide_eq_false in Hn.
      rewrite (Hother n c) by (auto using list_elem_of_here).
      apply IH; [|  |exact Hmatch].
      * intros n' c1 Hin'. apply Hother, list_elem_of_further, Hin'.
      * apply elem_of_cons in Hin as [Heq|Hin]; [|eauto].
        injection Heq as -> ->. contradiction.
Qed.

Lemma caches_match_open_and_put name request response s :
  method request = GET -> status response <> 206 ->
  (forall n c, (n, c) ∈ s -> n <> name -> cache_match c request = None) ->
  caches_match (open_and_put name request response s) request = Some response.
Proof.
  intros Hm Hs Hother. unfold open_and_put.
  destruct (cache_named_caches_open name s) as [c Hc]. rewrite Hc.
  assert (Hput : exists c', cache_put c request response = Some c').
  { unfold cache_put. rewrite bool_decide_eq_true_2 by exact Hm.
    apply Nat.eqb_neq in Hs. rewrite Hs. eauto. }
  destruct Hput as [c' Hput]. rewrite Hput.
  apply caches_match_set.
  - intros n c1 Hin Hne. apply caches_open_elem in Hin as [Hin|Heq].
    + apply (Hother n c1 Hin Hne).
    + injection Heq as -> ->. contradiction.
  - exists c. apply cache_named_elem, Hc.
  - apply (cache_match_put _ _ _ _ Hput).
Qed.

Lemma open_and_put_head name n c rest request response :
  n <> name ->
  exists rest',
    open_and_put name request response ((n, c) :: rest) = (n, c) :: rest'.
Proof.
  intros Hne. unfold open_and_put.
  assert (Hopen : exists t, caches_open name ((n, c) :: rest) = (n, c) :: t).
  { unfold caches_open. destruct (cache_named _ _); cbn [app]; eauto. }
  destruct Hopen as [t ->].
  destruct (cache_named name ((n, c) :: t)) as [c1|]; [|eauto].
  destruct (cache_put c1 request response) as [c2|]; [|eauto].
  unfold set_cache_named. cbn [fmap list_fmap fst].
  rewrite bool_decide_eq_false_2 by exact Hne. eauto.
Qed.

Section Answers.

Variable location_origin : string.

(** X16.  A GET to the API that the network answered with an [ok],
    non-partial response is answered with that same response when it is
    made again while the network is down, provided no other cache holds
    an entry for it. *)
Theorem api_offline_fallback request response s :
  origin (url request) = location_origin ->
  startsWith (pathname (url request)) "/api/" = true ->
  method request = GET ->
  ok response = true ->
  status response <> 206 ->
  (forall n c, (n, c) ∈ s -> n <> RUNTIME_CACHE ->
     cache_match c request = None) ->
  answer location_origin request None
    (handle location_origin (Fetch request (Some response)) s)
  = RespondWith (Some response).
Proof.
  intros Ho Hapi Hm Hok Hs Hother.
  unfold answer, handle, on_fetch.
  rewrite bool_decide_eq_false_2 by (intros H; apply H, Ho).
  rewrite Hapi, Hok. cbn [fetched_caches handled].
  rewrite caches_match_open_and_put by assumption. reflexivity.
Qed.

Lemma static_head_kept c rest ev :
  is_install ev = false ->
  exists rest',
    handle location_origin ev ((CACHE_NAME, c) :: rest)
    = (CACHE_NAME, c) :: rest'.
Proof.
  intros Hev.
  assert (Hput : forall request response,
            exists rest',
              open_and_put RUNTIME_CACHE request response
                ((CACHE_NAME, c) :: rest) = (CACHE_NAME, c) :: rest').
  { intros. apply open_and_put_head. discriminate. }
  destruct ev as [net| |request network]; [discriminate| |]; cbn [handle].
  - rewrite activate_filter, filter_cons_True by (left; reflexivity). eauto.
  - unfold on_fetch, fetchAndCache.
    destruct (bool_decide _); [cbn; eauto|].
    destruct (startsWith _ _).
    + destruct network as [response|]; cbn [fetched_caches]; [|eauto].
      destruct (ok response); [apply Hput | eauto].
    + destruct (caches_match _ request);
        destruct network as [response|]; cbn [fetched_caches]; eauto;
        destruct (_ || _); eauto.
Qed.

(** X17.  An asset that the static cache holds, the static cache being
    the first cache of the storage, is answered with that cached response
    on every later request, whatever the network answers in between and
    at that moment: the copies fetched in the background go to the
    runtime cache, which is consulted after the static one. *)
Theorem precached_asset_stays_stale evs : forall c rest request cached network,
  cache_match c request = Some cached ->
  origin (url request) = location_origin ->
  startsWith (pathname (url request)) "/api/" = false ->
  Forall (fun ev => is_install ev = false) evs ->
  answer location_origin request network
    (handle_all location_origin evs ((CACHE_NAME, c) :: rest))
  = RespondWith (Some cached).
Proof.
  induction evs as [|ev evs IH];
    intros c rest request cached network Hmatch Ho Hapi Hevs;
    cbn [handle_all].
  - unfold answer, on_fetch.
    rewrite bool_decide_eq_false_2 by (intros H; apply H, Ho).
    rewrite Hapi. cbn [caches_match]. rewrite Hmatch.
    destruct network; reflexivity.
  - apply Forall_cons in Hevs as [Hev Hevs].
    destruct (static_head_kept c rest ev Hev) as [rest' ->].
    apply IH; assumption.
Qed.

(** X18.  Activating twice is activating once. *)
Theorem activate_idempotent (s : CacheStorage) :
  activate (activate s) = activate s.
Proof.
  rewrite (activate_filter (activate s)), activate_filter.
  rewrite list_filter_filter. apply list_filter_iff. intros e. tauto.
Qed.

Lemma names_current_reachable s :
  reachable location_origin s -> Forall (fun e => current e.1) s.
Proof.
  assert (Hopen : forall name t,
            current name -> Forall (fun e => current e.1) t ->
            Forall (fun e => current e.1) (caches_open name t)).
  { intros name t Hname Ht. unfold caches_open.
    destruct (cache_named name t); [exact Ht|].
    apply Forall_app. split; [exact Ht|]. apply Forall_singleton. exact Hname. }
  assert (Hset : forall name c t,
            current name -> Forall (fun e => current e.1) t ->
            Forall (fun e => current e.1) (set_cache_named name c t)).
  { intros name c t Hname Ht. unfold set_cache_named.
    apply Forall_fmap. eapply Forall_impl; [exact Ht|].
    intros [n c0] Hn. cbn [compose fst] in *.
    destruct (bool_decide (n = name)); assumption. }
  assert (Hput : forall request response t,
            Forall (fun e => current e.1) t ->
            Forall (fun e => current e.1)
              (open_and_put RUNTIME_CACHE request response t)).
  { intros request response t Ht. unfold open_and_put.
    assert (Hc : current RUNTIME_CACHE) by (right; reflexivity).
    destruct (cache_named _ _); [destruct (cache_put _ _ _)|]; auto. }
  induction 1 as [|ev s _ IH]; [apply Forall_nil_2|].
  destruct ev as [net| |request network]; cbn [handle].
  - assert (Hc : current CACHE_NAME) by (left; reflexivity).
    unfold install. destruct (cache_named _ _); [destruct (addAll _ _ _)|];
      cbn [installed_caches]; auto.
  - rewrite activate_filter. apply Forall_forall. intros e He.
    apply list_elem_of_filter in He as [Hcur _]. exact Hcur.
  - unfold on_fetch, fetchAndCache.
    destruct (bool_decide _); [exact IH|].
    destruct (startsWith _ _).
    + destruct network as [response|]; cbn [fetched_caches]; [|exact IH].
      destruct (ok response); auto.
    + destruct (caches_match s request);
        destruct network as [response|]; cbn [fetched_caches]; auto;
        destruct (_ || _); auto.
Qed.

(** X19.  The worker never creates a cache of its own under another
    name: in every storage it can produce from an empty one, every cache
    bears one of the two current tags. *)
Theorem only_current_caches s :
  reachable location_origin s ->
  forall name, name ∈ caches_keys s ->
  name = CACHE_NAME \/ name = RUNTIME_CACHE.
Proof.
  intros Hreach name Hin. unfold caches_keys in Hin.
  apply list_elem_of_fmap in Hin as [[n c] [-> Hin]].
  pose proof (names_current_reachable s Hreach) as Hall.
  rewrite Forall_forall in Hall. exact (Hall _ Hin).
Qed.

End Answers.

Lemma install_precaches_witness :
  skipWaiting (install sample_origin echo_network []) = true /\
  exists c,
    cache_named CACHE_NAME
      (installed_caches (install sample_origin echo_network [])) = Some c /\
    cache_match c (new_Request sample_origin "/dashboard")
    = Some (sample_response "/dashboard").
Proof.
  destruct (install_precaches sample_origin echo_network [])
    as (Hskip & c & Hc & Hmatch).
  - intros path _. exists (sample_response path). repeat split. discriminate.
  - split; [exact Hskip|]. exists c. split; [exact Hc|].
    apply (Hmatch "/dashboard").
    do 3 apply list_elem_of_further. apply list_elem_of_here.
Defined.

Lemma install_all_or_nothing_witness :
  install sample_origin dead_network installed_storage
  = {| installed_caches := caches_open CACHE_NAME installed_storage;
       skipWaiting := false |}.
Proof.
  apply (install_all_or_nothing sample_origin dead_network installed_storage
           "/").
  - apply list_elem_of_here.
  - left. reflexivity.
Defined.

Lemma api_offline_fallback_witness :
  answer sample_origin (api_request GET "/api/dashboard-stats") None
    (handle sample_origin
       (Fetch (api_request GET "/api/dashboard-stats")
          (Some (sample_response "stats")))
       [])
  = RespondWith (Some (sample_response "stats")).
Proof.
  apply (api_offline_fallback sample_origin
           (api_request GET "/api/dashboard-stats") (sample_response "stats")
           []).
  - reflexivity.
  - reflexivity.
  - reflexivity.
  - reflexivity.
  - discriminate.
  - intros n c Hin. apply elem_of_nil in Hin. contradiction.
Defined.

Lemma precached_asset_stays_stale_witness :
  answer sample_origin (navigation "/dashboard")
    (Some (sample_response "newer dashboard"))
    (handle_all sample_origin
       [Fetch (navigation "/dashboard")
          (Some (sample_response "new dashboard"));
        Activate]
       [(CACHE_NAME,
         [(new_Request sample_origin "/dashboard",
           sample_response "old dashboard")])])
  = RespondWith (Some (sample_response "old dashboard")).
Proof.
  apply (precached_asset_stays_stale sample_origin).
  - reflexivity.
  - reflexivity.
  - reflexivity.
  - repeat constructor.
Defined.

Lemma only_current_caches_witness :
  RUNTIME_CACHE = CACHE_NAME \/ RUNTIME_CACHE = RUNTIME_CACHE.
Proof.
  apply (only_current_caches sample_origin
           (handle sample_origin
              (Fetch (api_request GET "/api/dashboard-stats")
                 (Some (sample_response "stats")))
              [])).
  - apply reachable_step, reachable_init.
  - apply list_elem_of_here.
Defined.

End SWProps.
